(** * tlackemann/piano: the collaborative piano client

    A shallow embedding of the three TypeScript sources of the client:
    - [lib/ws.ts]      the wire types ([GameEventType], [IGameEvent]);
    - [lib/game.ts]    the [Game] class drawing the keys and turning pointer
                       input into play / stop callbacks;
    - [components/canvas.tsx]  the React component owning the game, the
                       reconnecting WebSocket and the watcher count.

    Conventions of the embedding.
    - JavaScript values that cross the wire are [JsValue]s; numbers are
      integers ([Z]): every number this client produces or compares (event
      types, octaves, watcher counts, the backoff delay) is an integer.
    - Pixel geometry ([view.width / keyCount] and what is derived from it)
      is computed in binary64, the arithmetic of JavaScript numbers
      ([PrimFloat]), with its rounding.
    - Calls into the outside world (logger, Tone synth, socket [send],
      [setTimeout], the registered key callbacks) are recorded, in order, as
      a list of [Effect]s returned next to the new state.
    - [JSON.parse] belongs to the platform: the component is a function of
      it (a [Section] variable).
    - Of React the model keeps what the component relies on: the state
      cell of [useState], whether the component is still in the tree, and
      that rendering a value that is not a valid child removes it. *)

From Stdlib Require Import List String Ascii ZArith Bool Lia DecimalString.
From Stdlib Require Uint63 PrimFloat.
Import ListNotations.
Open Scope string_scope.
Open Scope Z_scope.

Set Warnings "-register-all".

(** ** JavaScript values *)

Module Js.

Inductive JsValue : Type :=
| VUndefined
| VNull
| VBool (b : bool)
| VNum (n : Z)
| VStr (s : string)
| VArr (elems : list JsValue)
| VObj (props : list (string * JsValue)).

Inductive Exn : Type :=
| SyntaxError
| TypeError.

(** Outcome of an expression that may throw. *)
Inductive Result (A : Type) : Type :=
| Ok (a : A)
| Throw (e : Exn).

Arguments Ok {A} a.
Arguments Throw {A} e.

Definition bind {A B : Type} (r : Result A) (k : A -> Result B) : Result B :=
  match r with
  | Ok a => k a
  | Throw e => Throw e
  end.

Notation "'let*' x ':=' r 'in' k" := (bind r (fun x => k))
  (at level 10, x pattern, r at level 100, k at level 200).

(** Decimal rendering of an integer-valued number, as [String(n)] does for
    the integers it prints in full (magnitude below [10^21]). *)
Definition numToString (n : Z) : string := NilZero.string_of_int (Z.to_int n).

(** [`${v}`]: the string conversion a template literal applies. *)
Fixpoint toString (v : JsValue) : string :=
  match v with
  | VUndefined => "undefined"
  | VNull => "null"
  | VBool true => "true"
  | VBool false => "false"
  | VNum n => numToString n
  | VStr s => s
  | VArr elems =>
      String.concat ","
        (map (fun e => match e with
                       | VUndefined | VNull => ""
                       | _ => toString e
                       end) elems)
  | VObj _ => "[object Object]"
  end.

(** Own property of an object built by [JSON.parse]: the last occurrence of
    a repeated name wins. *)
Fixpoint lookup (props : list (string * JsValue)) (name : string) : option JsValue :=
  match props with
  | [] => None
  | (n, v) :: rest =>
      match lookup rest name with
      | Some v' => Some v'
      | None => if String.eqb n name then Some v else None
      end
  end.

(** [v.name] as read by a destructuring pattern [const { name } = v], for the
    four names the component reads ([type], [message], [key], [octave]):
    [null] and [undefined] throw, an object yields its own property, and
    every other value (no prototype defines these names) yields
    [undefined]. *)
Definition getProp (v : JsValue) (name : string) : Result JsValue :=
  match v with
  | VUndefined | VNull => Throw TypeError
  | VObj props =>
      match lookup props name with
      | Some x => Ok x
      | None => Ok VUndefined
      end
  | _ => Ok VUndefined
  end.

(** The JavaScript number (binary64) an integer is; exact for magnitudes
    below [2^53], which covers every canvas size and key count. *)
Definition toNumber (z : Z) : PrimFloat.float :=
  if z <? 0 then PrimFloat.opp (PrimFloat.of_uint63 (Uint63.of_Z (- z)))
  else PrimFloat.of_uint63 (Uint63.of_Z z).

(** [Array.prototype.indexOf] on an array of strings (strict equality). *)
Fixpoint indexOf (l : list string) (x : string) : Z :=
  match l with
  | [] => -1
  | y :: rest =>
      if String.eqb y x then 0
      else let r := indexOf rest x in
           if r <? 0 then -1 else r + 1
  end.

End Js.

Import Js.

(** ** lib/ws.ts *)

Inductive GameEventType : Type :=
| Play
| Stop
| Watchers.

(** Numeric value of the enum members. *)
Definition GameEventType_code (t : GameEventType) : Z :=
  match t with
  | Play => 0
  | Stop => 1
  | Watchers => 2
  end.

(** [IGameEvent<T>], the object handed to [JSON.stringify]. *)
Definition IGameEvent (type : GameEventType) (message : JsValue) : JsValue :=
  VObj [("type", VNum (GameEventType_code type)); ("message", message)].

(** ** Effects on the outside world *)

Inductive LogLevel : Type :=
| Debug
| Info
| Warn
| Error.

(** [KeyPlayEvent]: a callback [(key, octave) => void].  The only closures
    ever registered are the two of canvas.tsx,
    [(key, octave) => sendEvent(type, { key, octave })]; each is
    represented by the event type it captures. *)
Inductive KeyPlayEvent : Type :=
| SendEventWith (type : GameEventType).

Inductive Effect : Type :=
| Log (level : LogLevel) (fmt : string) (args : list JsValue)
| Invoke (callback : KeyPlayEvent) (key : string) (octave : Z)
| TriggerAttack (note : string)
| TriggerRelease
| WsNew (socket : nat)
| WsSend (socket : nat) (payload : JsValue)
| WsCloseCall (socket : nat)
| SetTimeout (delay : Z)
| AppDestroy.

(** ** lib/game.ts *)

Module PianoSprite.

Record Meta : Type := mkMeta {
  key : string;
  octave : Z;
  playing : bool;
  playingColor : Z
}.

Record t : Type := mkSprite {
  meta : Meta;
  tint : Z;
  width : PrimFloat.float;
  height : PrimFloat.float;
  x : PrimFloat.float;
  y : PrimFloat.float;
  interactive : bool;
  buttonMode : bool
}.

Definition set_tint (s : t) (c : Z) : t :=
  mkSprite (meta s) c (width s) (height s) (x s) (y s) (interactive s) (buttonMode s).

End PianoSprite.

Module Game.

Definition PIANO_KEY_COLORS : list Z :=
  [0xe0fefe; 0xc7ceea; 0xffdac1; 0xff9aa2; 0xffffd8; 0xb5ead7].

Definition PIANO_KEYS : list string :=
  ["c"; "c#"; "d"; "d#"; "e"; "f"; "f#"; "g"; "g#"; "a"; "a#"; "b"].

(** The canvas handed to the constructor, at the size [resizeTo: window]
    gives it. *)
Record HTMLCanvasElement : Type := mkView {
  view_width : Z;
  view_height : Z
}.

(** The PIXI application, as far as the class touches it. *)
Record Application : Type := mkApp {
  view : HTMLCanvasElement;
  backgroundColor : Z;
  stage_interactive : bool;
  children : list PianoSprite.t;
  destroyed : bool
}.

Record t : Type := mkGame {
  app : Application;
  keyCount : nat;
  pointerDown : bool;
  _onKeyPlay : option KeyPlayEvent;
  _onKeyStop : option KeyPlayEvent;
  playing : list string
}.

Definition set_app (g : t) (a : Application) : t :=
  mkGame a (keyCount g) (pointerDown g) (_onKeyPlay g) (_onKeyStop g) (playing g).

Definition set_children (g : t) (cs : list PianoSprite.t) : t :=
  set_app g (mkApp (view (app g)) (backgroundColor (app g))
                   (stage_interactive (app g)) cs (destroyed (app g))).

Definition set_pointerDown (g : t) (b : bool) : t :=
  mkGame (app g) (keyCount g) b (_onKeyPlay g) (_onKeyStop g) (playing g).

Definition set_playing (g : t) (p : list string) : t :=
  mkGame (app g) (keyCount g) (pointerDown g) (_onKeyPlay g) (_onKeyStop g) p.

(** [/\#/.test(key)]: some character of [key] is [#]. *)
Fixpoint isBlackKey (key : string) : bool :=
  match key with
  | EmptyString => false
  | String c rest => if Ascii.eqb c "#" then true else isBlackKey rest
  end.

(** Tint of a fresh [Sprite] (PIXI's default). *)
Definition DEFAULT_TINT : Z := 0xffffff.

Definition drawPianoKey (g : t) (key : string) (octave : Z) (position : nat) : t :=
  let meta :=
    PianoSprite.mkMeta key octave false
      (nth (position mod List.length PIANO_KEY_COLORS) PIANO_KEY_COLORS 0) in
  let height := PrimFloat.div (toNumber (view_height (view (app g)))) (toNumber 2) in
  let width := PrimFloat.div (toNumber (view_width (view (app g))))
                             (toNumber (Z.of_nat (keyCount g))) in
  let sprite_height := PrimFloat.mul width (toNumber 8) in
  let sprite_width := width in
  let tint := if isBlackKey key then 0x000000 else DEFAULT_TINT in
  let sprite :=
    PianoSprite.mkSprite meta tint sprite_width sprite_height
      (PrimFloat.mul width (toNumber (Z.of_nat position)))
      (PrimFloat.sub height (PrimFloat.div sprite_height (toNumber 2)))
      true true in
  set_children g (children (app g) ++ [sprite]).

Definition createPianoKeys (g : t) : t :=
  let totalKeys := List.length PIANO_KEYS in
  fold_left
    (fun g i =>
       let octave := Z.of_nat (i / totalKeys) + 1 in
       drawPianoKey g (nth (i mod totalKeys) PIANO_KEYS "") octave i)
    (seq 0 (keyCount g)) g.

(** [new Game(view)]: field initialisers, then the constructor body. *)
Definition new (v : HTMLCanvasElement) : t :=
  createPianoKeys
    (mkGame (mkApp v 0xffffff true [] false) 52 false None None []).

Definition destroy (g : t) : t * list Effect :=
  (set_app g (mkApp (view (app g)) (backgroundColor (app g))
                    (stage_interactive (app g)) (children (app g)) true),
   [AppDestroy]).

Definition onKeyPlay (g : t) (callback : KeyPlayEvent) : t :=
  mkGame (app g) (keyCount g) (pointerDown g) (Some callback) (_onKeyStop g) (playing g).

Definition onKeyStop (g : t) (callback : KeyPlayEvent) : t :=
  mkGame (app g) (keyCount g) (pointerDown g) (_onKeyPlay g) (Some callback) (playing g).

(** The two handlers the constructor puts on the stage. *)
Definition stage_pointerdown (g : t) : t := set_pointerDown g true.
Definition stage_pointerup (g : t) : t := set_pointerDown g false.

(** [`${key}${octave}`] *)
Definition keyId (key octave : JsValue) : string :=
  toString key ++ toString octave.

Definition isPlaying (g : t) (key octave : JsValue) : bool :=
  indexOf (playing g) (keyId key octave) >=? 0.

Definition onPointerDown (g : t) (sprite : PianoSprite.t) : list Effect :=
  let m := PianoSprite.meta sprite in
  if negb (isPlaying g (VStr (PianoSprite.key m)) (VNum (PianoSprite.octave m))) then
    Log Info "key down %s%d" [VStr (PianoSprite.key m); VNum (PianoSprite.octave m)]
    :: match _onKeyPlay g with
       | Some cb => [Invoke cb (PianoSprite.key m) (PianoSprite.octave m)]
       | None => []
       end
  else [].

Definition onPointerUp (g : t) (sprite : PianoSprite.t) : list Effect :=
  let m := PianoSprite.meta sprite in
  if isPlaying g (VStr (PianoSprite.key m)) (VNum (PianoSprite.octave m)) then
    Log Info "key up %s%d" [VStr (PianoSprite.key m); VNum (PianoSprite.octave m)]
    :: match _onKeyStop g with
       | Some cb => [Invoke cb (PianoSprite.key m) (PianoSprite.octave m)]
       | None => []
       end
  else [].

Definition onPointerOver (g : t) (sprite : PianoSprite.t) : list Effect :=
  let m := PianoSprite.meta sprite in
  if pointerDown g
     && negb (isPlaying g (VStr (PianoSprite.key m)) (VNum (PianoSprite.octave m))) then
    Log Info "key over %s%d" [VStr (PianoSprite.key m); VNum (PianoSprite.octave m)]
    :: match _onKeyPlay g with
       | Some cb => [Invoke cb (PianoSprite.key m) (PianoSprite.octave m)]
       | None => []
       end
  else [].

Definition startPlaying (g : t) (key octave : JsValue) : t * list Effect :=
  (set_playing g (playing g ++ [keyId key octave]),
   [TriggerAttack (keyId key octave)]).

Definition stopPlaying (g : t) (key octave : JsValue) : t * list Effect :=
  (set_playing g
     (filter (fun k => negb (String.eqb k (keyId key octave))) (playing g)),
   [TriggerRelease]).

Definition render_sprite (g : t) (sprite : PianoSprite.t) : PianoSprite.t :=
  let m := PianoSprite.meta sprite in
  if isPlaying g (VStr (PianoSprite.key m)) (VNum (PianoSprite.octave m)) then
    PianoSprite.set_tint sprite (PianoSprite.playingColor m)
  else
    PianoSprite.set_tint sprite
      (if negb (isBlackKey (PianoSprite.key m)) then 0xffffff else 0x000000).

Definition render (g : t) : t :=
  set_children g (map (render_sprite g) (children (app g))).

End Game.

(** ** components/canvas.tsx *)

Module Canvas.

(** The component's refs and state.  A socket object is named by its
    creation number; [timers] holds the delays of the reconnect timers that
    were scheduled and have not fired yet, oldest first; [isMounted] tells
    whether React still has the component in the tree (the refs, and the
    socket handlers closing over them, outlive it). *)
Record t : Type := mkCanvas {
  appRef : option Game.t;
  wsRef : option nat;
  sockets : nat;
  watchers : JsValue;
  reconnectBackoff : Z;
  timers : list Z;
  isMounted : bool
}.

(** State of a freshly rendered component: [useRef()], [useState(1)],
    [useRef(100)]. *)
Definition initial : t := mkCanvas None None 0%nat (VNum 1) 100 [] true.

Definition set_appRef (c : t) (a : option Game.t) : t :=
  mkCanvas a (wsRef c) (sockets c) (watchers c) (reconnectBackoff c) (timers c)
           (isMounted c).

(** The state cell of [useState]. *)
Definition storeWatchers (c : t) (w : JsValue) : t :=
  mkCanvas (appRef c) (wsRef c) (sockets c) w (reconnectBackoff c) (timers c)
           (isMounted c).

Definition set_reconnectBackoff (c : t) (d : Z) : t :=
  mkCanvas (appRef c) (wsRef c) (sockets c) (watchers c) d (timers c) (isMounted c).

Definition set_timers (c : t) (ts : list Z) : t :=
  mkCanvas (appRef c) (wsRef c) (sockets c) (watchers c) (reconnectBackoff c) ts
           (isMounted c).

Definition set_isMounted (c : t) (b : bool) : t :=
  mkCanvas (appRef c) (wsRef c) (sockets c) (watchers c) (reconnectBackoff c)
           (timers c) b.

(** What [await import('../lib/game')] and [initGame(canvasRef.current)]
    can come to. *)
Inductive Boot : Type :=
| ImportFails
| NoCanvas
| GameThrows
| Ready (view : Game.HTMLCanvasElement).

(** [wsRef.current?.send(JSON.stringify({ type, message }))] *)
Definition sendEvent (c : t) (type : GameEventType) (message : JsValue) : list Effect :=
  match wsRef c with
  | Some ws => [WsSend ws (IGameEvent type message)]
  | None => []
  end.

(** Running a registered key callback: [sendEvent(type, { key, octave })]. *)
Definition call (c : t) (e : Effect) : list Effect :=
  match e with
  | Invoke (SendEventWith type) key octave =>
      e :: sendEvent c type (VObj [("key", VStr key); ("octave", VNum octave)])
  | _ => [e]
  end.

(** [appRef.current?.startPlaying(key, octave)] *)
Definition app_startPlaying (c : t) (key octave : JsValue) : t * list Effect :=
  match appRef c with
  | Some g => let '(g', out) := Game.startPlaying g key octave in
              (set_appRef c (Some g'), out)
  | None => (c, [])
  end.

(** [appRef.current?.stopPlaying(key, octave)] *)
Definition app_stopPlaying (c : t) (key octave : JsValue) : t * list Effect :=
  match appRef c with
  | Some g => let '(g', out) := Game.stopPlaying g key octave in
              (set_appRef c (Some g'), out)
  | None => (c, [])
  end.

(** [type === GameEventType.X], the test of a [case] label. *)
Definition isCase (type : JsValue) (label : GameEventType) : bool :=
  match type with
  | VNum n => n =? GameEventType_code label
  | _ => false
  end.

(** The component leaves the tree: React runs the cleanup of the mount
    effect. *)
Definition unmount (c : t) : t * list Effect :=
  let '(c1, out1) :=
    match appRef c with
    | Some g => let '(g', out) := Game.destroy g in (set_appRef c (Some g'), out)
    | None => (c, [])
    end in
  let out2 :=
    match wsRef c1 with
    | Some ws => [WsCloseCall ws]
    | None => []
    end in
  (set_isMounted c1 false, Log Info "unmounting canvas" [] :: (out1 ++ out2)%list).

(** Whether React can render a value as a child, as in
    [{watchers} composing]: a plain object is not a valid child and makes
    the render throw; an array is rendered item by item; every other value
    renders (numbers and strings as text, booleans, [null] and [undefined]
    as nothing). *)
Fixpoint validChild (v : JsValue) : bool :=
  match v with
  | VObj _ => false
  | VArr elems => forallb validChild elems
  | _ => true
  end.

(** [setWatchers(w)]: React stores the new state and renders the component
    again.  On a component that has left the tree the update is ignored.
    When the new value is not a valid child the render throws and, there
    being no error boundary, React removes the component, which runs the
    cleanup of the mount effect.  How React reports the render error
    (rethrown to the caller by a synchronous render, or reported on its own
    afterwards) is React's and is not recorded. *)
Definition setWatchers (c : t) (w : JsValue) : t * list Effect :=
  if isMounted c then
    if validChild w then (storeWatchers c w, [])
    else unmount (storeWatchers c w)
  else (c, []).

Section WithPlatform.

(** [JSON.parse]: the parsed value, or the [SyntaxError] it throws. *)
Variable JSON_parse : string -> Result JsValue.

(** The [try] block of [onmessage]. *)
Definition onmessage_try (c : t) (data : string) : Result (t * list Effect) :=
  let* parsed := JSON_parse data in
  let* type := getProp parsed "type" in
  let* message := getProp parsed "message" in
  if isCase type Play then
    let* key := getProp message "key" in
    let* octave := getProp message "octave" in
    Ok (app_startPlaying c key octave)
  else if isCase type Stop then
    let* key := getProp message "key" in
    let* octave := getProp message "octave" in
    Ok (app_stopPlaying c key octave)
  else if isCase type Watchers then
    Ok (setWatchers c message)
  else
    Ok (c, []).

Definition onmessage (c : t) (data : string) : t * list Effect :=
  let pre := [Log Info "websocket message received" []; Log Debug data []] in
  match onmessage_try c data with
  | Ok (c', out) => (c', (pre ++ out)%list)
  | Throw _ =>
      (c, (pre ++ [Log Error "problem parsing websocket message: %s" []])%list)
  end.

Definition onopen (c : t) : t * list Effect :=
  (set_reconnectBackoff c 100, [Log Info "websocket connection opened" []]).

Definition onclose (c : t) : t * list Effect :=
  (set_timers c (timers c ++ [reconnectBackoff c]),
   [Log Info "websocket connection closed" []; SetTimeout (reconnectBackoff c)]).

Definition initWs (c : t) : t * list Effect :=
  (mkCanvas (appRef c) (Some (sockets c)) (S (sockets c)) (watchers c)
            (reconnectBackoff c) (timers c) (isMounted c),
   [Log Info "initializing websocket connection to %s" []; WsNew (sockets c)]).

(** The function handed to [setTimeout] by [onclose]. *)
Definition reconnect (c : t) : t * list Effect :=
  let '(c1, out) := initWs c in
  (set_reconnectBackoff c1 (reconnectBackoff c1 * 2),
   Log Info "attempting to reconnect" [] :: out).

Definition initApp (c : t) (boot : Boot) : t * list Effect :=
  match appRef c with
  | Some _ => (c, [Log Warn "canvas already initialized" []])
  | None =>
      let '(c1, out1) :=
        match boot with
        | ImportFails =>
            (c, [Log Error "problem initializing canvas: %s" []])
        | NoCanvas =>
            (c, [Log Info "initializing canvas" []])
        | GameThrows =>
            (c, [Log Info "initializing canvas" [];
                 Log Error "problem initializing canvas: %s" []])
        | Ready v =>
            (set_appRef c (Some (Game.new v)), [Log Info "initializing canvas" []])
        end in
      let '(c2, out2) := initWs c1 in
      let c3 :=
        match appRef c2 with
        | Some g => set_appRef c2 (Some (Game.onKeyPlay g (SendEventWith Play)))
        | None => c2
        end in
      let c4 :=
        match appRef c3 with
        | Some g => set_appRef c3 (Some (Game.onKeyStop g (SendEventWith Stop)))
        | None => c3
        end in
      (c4, (out1 ++ out2)%list)
  end.

(** Body of the mount effect. *)
Definition mount (c : t) (boot : Boot) : t * list Effect :=
  let '(c1, out) := initApp c boot in
  (c1, Log Info "mounting canvas" [] :: out).

(** Everything that can happen to a mounted component.  A pointer event on
    key number [i] runs the sprite's handler and, for [pointerdown] and
    [pointerup], bubbles to the handler of the stage. *)
Inductive Event : Type :=
| Mount (boot : Boot)
| Unmount
| WsOpen
| WsClose
| WsMessage (data : string)
| TimerFired (n : nat)
| Tick
| StagePointerDown
| StagePointerUp
| KeyPointerDown (i : nat)
| KeyPointerUp (i : nat)
| KeyPointerUpOutside (i : nat)
| KeyPointerOut (i : nat)
| KeyPointerOver (i : nat).

Fixpoint remove_nth {A : Type} (n : nat) (l : list A) : list A :=
  match l, n with
  | [], _ => []
  | _ :: rest, O => rest
  | a :: rest, S n' => a :: remove_nth n' rest
  end.

(** A handler of the game run on behalf of key [i], its callbacks called.
    A destroyed application delivers no pointer event and no tick. *)
Definition on_key (c : t) (i : nat)
    (handler : Game.t -> PianoSprite.t -> list Effect)
    (bubble : Game.t -> Game.t) : t * list Effect :=
  match appRef c with
  | Some g =>
      if Game.destroyed (Game.app g) then (c, [])
      else
        match nth_error (Game.children (Game.app g)) i with
        | Some sprite =>
            (set_appRef c (Some (bubble g)), flat_map (call c) (handler g sprite))
        | None => (c, [])
        end
  | None => (c, [])
  end.

Definition on_stage (c : t) (handler : Game.t -> Game.t) : t * list Effect :=
  match appRef c with
  | Some g =>
      if Game.destroyed (Game.app g) then (c, [])
      else (set_appRef c (Some (handler g)), [])
  | None => (c, [])
  end.

Definition step (c : t) (e : Event) : t * list Effect :=
  match e with
  | Mount boot => mount c boot
  | Unmount => unmount c
  | WsOpen => onopen c
  | WsClose => onclose c
  | WsMessage data => onmessage c data
  | TimerFired n =>
      match nth_error (timers c) n with
      | Some _ => reconnect (set_timers c (remove_nth n (timers c)))
      | None => (c, [])
      end
  | Tick => on_stage c Game.render
  | StagePointerDown => on_stage c Game.stage_pointerdown
  | StagePointerUp => on_stage c Game.stage_pointerup
  | KeyPointerDown i => on_key c i Game.onPointerDown Game.stage_pointerdown
  | KeyPointerUp i => on_key c i Game.onPointerUp Game.stage_pointerup
  | KeyPointerUpOutside i => on_key c i Game.onPointerUp (fun g => g)
  | KeyPointerOut i => on_key c i Game.onPointerUp (fun g => g)
  | KeyPointerOver i => on_key c i Game.onPointerOver (fun g => g)
  end.

(** A run of events, with everything it did to the outside world. *)
Fixpoint run (c : t) (es : list Event) : t * list Effect :=
  match es with
  | [] => (c, [])
  | e :: rest =>
      let '(c1, out1) := step c e in
      let '(c2, out2) := run c1 rest in
      (c2, (out1 ++ out2)%list)
  end.

(** The inbound payloads that dispatch to the [Watchers] case. *)
Definition isWatchersMessage (data : string) : bool :=
  match (let* parsed := JSON_parse data in getProp parsed "type") with
  | Ok type => isCase type Watchers
  | Throw _ => false
  end.

End WithPlatform.

End Canvas.

(** ** Observations used by the statements *)

Definition KeyPlayEvent_eqb (a b : KeyPlayEvent) : bool :=
  match a, b with
  | SendEventWith x, SendEventWith y =>
      GameEventType_code x =? GameEventType_code y
  end.

(** The callback invocations of a trace, in order. *)
Fixpoint invocations (out : list Effect) : list (KeyPlayEvent * string * Z) :=
  match out with
  | [] => []
  | Invoke cb key octave :: rest => (cb, key, octave) :: invocations rest
  | _ :: rest => invocations rest
  end.

(** How many times callback [cb] was called for key [(key, octave)]. *)
Definition fired (cb : KeyPlayEvent) (key : string) (octave : Z)
    (out : list Effect) : nat :=
  List.length
    (filter (fun '(cb', k, o) =>
               KeyPlayEvent_eqb cb cb' && String.eqb k key && (o =? octave))
            (invocations out)).


(** The playing set a component shows (none without a game). *)
Definition playing_of (c : Canvas.t) : list string :=
  match Canvas.appRef c with
  | Some g => Game.playing g
  | None => []
  end.

(** What one event does to the playing set: nothing, one [push], or one
    [filter]. *)
Inductive playing_change (before after : list string) : Prop :=
| Unchanged : after = before -> playing_change before after
| Pushed (id : string) : after = (before ++ [id])%list -> playing_change before after
| Filtered (id : string) :
    after = filter (fun k => negb (String.eqb k id)) before ->
    playing_change before after.

(** [data] parses to an event of type [type] with payload [message]. *)
Definition receives (JSON_parse : string -> Result JsValue)
    (data : string) (type : GameEventType) (message : JsValue) : Prop :=
  exists parsed,
    JSON_parse data = Ok parsed
    /\ getProp parsed "type" = Ok (VNum (GameEventType_code type))
    /\ getProp parsed "message" = Ok message.

(** The events other than the receipt of a Watchers message. *)
Definition otherThanWatchers (JSON_parse : string -> Result JsValue)
    (e : Canvas.Event) : bool :=
  match e with
  | Canvas.WsMessage data => negb (Canvas.isWatchersMessage JSON_parse data)
  | _ => true
  end.

(** The layout in the words of the specification: key number [position] of
    [count] keys over a canvas [v] gets the pitch class cycling through the
    twelve names, the octave going up by one every twelve keys from 1, the
    tint of the palette cycling through its six colours, and one
    [count]-th of the width, starting at [position] times that width from
    the left (products and quotients of JavaScript numbers). *)
Definition layoutKey (v : Game.HTMLCanvasElement) (count position : nat) : PianoSprite.t :=
  let pitch := nth (position mod 12) Game.PIANO_KEYS "" in
  let unit := PrimFloat.div (toNumber (Game.view_width v))
                            (toNumber (Z.of_nat count)) in
  PianoSprite.mkSprite
    (PianoSprite.mkMeta pitch (Z.of_nat (position / 12) + 1) false
       (nth (position mod 6) Game.PIANO_KEY_COLORS 0))
    (if Game.isBlackKey pitch then 0 else 0xffffff)
    unit
    (PrimFloat.mul unit (toNumber 8))
    (PrimFloat.mul unit (toNumber (Z.of_nat position)))
    (PrimFloat.sub (PrimFloat.div (toNumber (Game.view_height v)) (toNumber 2))
                   (PrimFloat.div (PrimFloat.mul unit (toNumber 8)) (toNumber 2)))
    true true.

(** The game as the field initialisers leave it, before the constructor
    draws the keys. *)
Definition blank (v : Game.HTMLCanvasElement) : Game.t :=
  Game.mkGame (Game.mkApp v 0xffffff true [] false) 52 false None None [].

(** The key identity of a sprite, as the handlers compute it. *)
Definition sprite_id (sprite : PianoSprite.t) : string :=
  Game.keyId (VStr (PianoSprite.key (PianoSprite.meta sprite)))
             (VNum (PianoSprite.octave (PianoSprite.meta sprite))).

(** [n] failed connection attempts in a row: the socket closes, the
    reconnect timer fires. *)
Fixpoint failures (n : nat) : list Canvas.Event :=
  match n with
  | O => []
  | S n' => Canvas.WsClose :: Canvas.TimerFired 0 :: failures n'
  end.

(** The payload of a key event: [{ key, octave }]. *)
Definition keyMessage (key : string) (octave : Z) : JsValue :=
  VObj [("key", VStr key); ("octave", VNum octave)].

(** The messages handed to a socket, in order, with the socket they went to. *)
Fixpoint sends (out : list Effect) : list (nat * JsValue) :=
  match out with
  | [] => []
  | WsSend ws payload :: rest => (ws, payload) :: sends rest
  | _ :: rest => sends rest
  end.

(** The calls into the synth, in order. *)
Fixpoint synthCalls (out : list Effect) : list Effect :=
  match out with
  | [] => []
  | TriggerAttack note :: rest => TriggerAttack note :: synthCalls rest
  | TriggerRelease :: rest => TriggerRelease :: synthCalls rest
  | _ :: rest => synthCalls rest
  end.

(** The sockets opened, in order. *)
Fixpoint opened (out : list Effect) : list nat :=
  match out with
  | [] => []
  | WsNew ws :: rest => ws :: opened rest
  | _ :: rest => opened rest
  end.

(** The reconnect delays handed to [setTimeout], in order. *)
Fixpoint delays (out : list Effect) : list Z :=
  match out with
  | [] => []
  | SetTimeout d :: rest => d :: delays rest
  | _ :: rest => delays rest
  end.

(** Pairwise distinct strings. *)
Fixpoint distinct (l : list string) : bool :=
  match l with
  | [] => true
  | x :: rest => negb (existsb (String.eqb x) rest) && distinct rest
  end.

(** The events that come from the socket's message handler. *)
Definition isMessage (e : Canvas.Event) : bool :=
  match e with
  | Canvas.WsMessage _ => true
  | _ => false
  end.

(** The two log lines every inbound message starts with. *)
Definition received (data : string) : list Effect :=
  [Log Info "websocket message received" []; Log Debug data []].

(** The game as [initApp] leaves it: drawn, with the two callbacks of the
    component registered. *)
Definition wired (v : Game.HTMLCanvasElement) : Game.t :=
  Game.onKeyStop (Game.onKeyPlay (Game.new v) (SendEventWith Play))
                 (SendEventWith Stop).

(** The pointer events of a key. *)
Definition isKeyPointer (e : Canvas.Event) : bool :=
  match e with
  | Canvas.KeyPointerDown _ | Canvas.KeyPointerUp _ | Canvas.KeyPointerUpOutside _
  | Canvas.KeyPointerOut _ | Canvas.KeyPointerOver _ => true
  | _ => false
  end.

(** The pointer button itself, as the user holds it: pressed by a pointer
    down, released by a pointer up wherever the release lands, on a key, on
    the stage or outside of what was pressed. *)
Definition buttonAfter (held : bool) (e : Canvas.Event) : bool :=
  match e with
  | Canvas.StagePointerDown | Canvas.KeyPointerDown _ => true
  | Canvas.StagePointerUp | Canvas.KeyPointerUp _
  | Canvas.KeyPointerUpOutside _ => false
  | _ => held
  end.

(** Whether the button is held after a history of events that began with
    the button up. *)
Definition buttonHeld (es : list Canvas.Event) : bool :=
  fold_left buttonAfter es false.

(** A delay of the backoff sequence: 100 ms doubled some number of times. *)
Definition isBackoffDelay (d : Z) : Prop := exists k : nat, d = 100 * 2 ^ Z.of_nat k.

(** Nothing but logging, callbacks and sends. *)
Definition quiet (out : list Effect) : Prop :=
  synthCalls out = [] /\ delays out = [] /\ opened out = [].

(** The game a component holds is the one [initApp] wired: both callbacks
    registered, 52 keys, and sprites that differ from the freshly drawn ones
    in their tints at most. *)
Definition wiredGame (g : Game.t) : Prop :=
  Game._onKeyPlay g = Some (SendEventWith Play)
  /\ Game._onKeyStop g = Some (SendEventWith Stop)
  /\ Game.keyCount g = 52%nat
  /\ map PianoSprite.meta (Game.children (Game.app g))
     = map PianoSprite.meta
         (Game.children (Game.app (Game.new (Game.view (Game.app g))))).

(** The refs of a component agree: a game is held only together with a
    socket, and the socket held is the last one opened. *)
Definition refsAgree (c : Canvas.t) : Prop :=
  (forall g, Canvas.appRef c = Some g -> wiredGame g /\ Canvas.wsRef c <> None)
  /\ (Canvas.wsRef c = None /\ Canvas.sockets c = 0%nat
      \/ exists n, Canvas.sockets c = S n /\ Canvas.wsRef c = Some n).

(** *** Concrete payloads for the examples *)

Definition dquote : string := String "034"%char EmptyString.

(** The text [{"type":<type>,"message":{"key":"<key>","octave":<octave>}}]. *)
Definition key_event_text (type : GameEventType) (key : string) (octave : Z) : string :=
  ("{" ++ dquote ++ "type" ++ dquote ++ ":" ++ numToString (GameEventType_code type)
   ++ "," ++ dquote ++ "message" ++ dquote ++ ":{"
   ++ dquote ++ "key" ++ dquote ++ ":" ++ dquote ++ key ++ dquote ++ ","
   ++ dquote ++ "octave" ++ dquote ++ ":" ++ numToString octave ++ "}}")%string.

(** The text [{"type":2,"message":<count>}]. *)
Definition watchers_text (count : Z) : string :=
  ("{" ++ dquote ++ "type" ++ dquote ++ ":2," ++ dquote ++ "message" ++ dquote
   ++ ":" ++ numToString count ++ "}")%string.

(** An instance of [JSON.parse] for the examples: it agrees with the
    platform's on the five payloads it knows and on any text that is not
    JSON; the examples give it nothing else. *)
Definition parse_known (data : string) : Result JsValue :=
  if String.eqb data (key_event_text Play "c" 1) then
    Ok (IGameEvent Play (VObj [("key", VStr "c"); ("octave", VNum 1)]))
  else if String.eqb data (key_event_text Stop "c" 1) then
    Ok (IGameEvent Stop (VObj [("key", VStr "c"); ("octave", VNum 1)]))
  else if String.eqb data (key_event_text Play "c#" 4) then
    Ok (IGameEvent Play (VObj [("key", VStr "c#"); ("octave", VNum 4)]))
  else if String.eqb data (key_event_text Stop "c#" 4) then
    Ok (IGameEvent Stop (VObj [("key", VStr "c#"); ("octave", VNum 4)]))
  else if String.eqb data (watchers_text 5) then
    Ok (IGameEvent Watchers (VNum 5))
  else Throw SyntaxError.

(** The text [{"type":<code>}], an event without a message. *)
Definition bare_event_text (code : Z) : string :=
  ("{" ++ dquote ++ "type" ++ dquote ++ ":" ++ numToString code ++ "}")%string.

(** A second instance of [JSON.parse] for the examples, knowing a few more
    payloads: [null], events without a message, and a Watchers event for 9. *)
Definition parse_more (data : string) : Result JsValue :=
  if String.eqb data "null" then Ok VNull
  else if String.eqb data (bare_event_text 0) then Ok (VObj [("type", VNum 0)])
  else if String.eqb data (bare_event_text 7) then Ok (VObj [("type", VNum 7)])
  else if String.eqb data (watchers_text 9) then Ok (IGameEvent Watchers (VNum 9))
  else parse_known data.

(** A window of 1040 by 600 pixels, and the component mounted in it. *)
Definition view0 : Game.HTMLCanvasElement := Game.mkView 1040 600.

Definition mounted : Canvas.t :=
  fst (Canvas.step parse_known Canvas.initial (Canvas.Mount (Canvas.Ready view0))).

Definition game0 : Game.t :=
  Game.onKeyStop (Game.onKeyPlay (Game.new view0) (SendEventWith Play))
                 (SendEventWith Stop).

(** The first key of the keyboard, [c1]. *)
Definition sprite_c1 : PianoSprite.t :=
  nth 0 (Game.children (Game.app game0))
      (PianoSprite.mkSprite (PianoSprite.mkMeta "" 0 false 0) 0
         (toNumber 0) (toNumber 0) (toNumber 0) (toNumber 0) false false).

(** * Properties *)

(** ** The playing set as a list *)

Lemma indexOf_lower_bound (l : list string) (x : string) : -1 <= indexOf l x.
Proof.
  induction l as [|y rest IH]; simpl; [lia|].
  destruct (String.eqb y x); [lia|].
  destruct (indexOf rest x <? 0) eqn:E; [lia|].
  apply Z.ltb_ge in E. lia.
Qed.

Lemma indexOf_found (l : list string) (x : string) :
  0 <= indexOf l x <-> In x l.
Proof.
  induction l as [|y rest IH]; simpl.
  - split; [lia | tauto].
  - destruct (String.eqb y x) eqn:Eyx.
    + apply String.eqb_eq in Eyx. split; [auto | lia].
    + apply String.eqb_neq in Eyx.
      destruct (indexOf rest x <? 0) eqn:E.
      * apply Z.ltb_lt in E. split; [lia|].
        intros [H|H]; [contradiction|]. apply IH in H. lia.
      * apply Z.ltb_ge in E. split.
        -- intros _. right. apply IH. exact E.
        -- intros _. lia.
Qed.

Lemma isPlaying_true (g : Game.t) (key octave : JsValue) :
  Game.isPlaying g key octave = true <-> In (Game.keyId key octave) (Game.playing g).
Proof.
  unfold Game.isPlaying. rewrite Z.geb_le. apply indexOf_found.
Qed.

Lemma isPlaying_false (g : Game.t) (key octave : JsValue) :
  Game.isPlaying g key octave = false <-> ~ In (Game.keyId key octave) (Game.playing g).
Proof.
  rewrite <- isPlaying_true. destruct (Game.isPlaying g key octave); split;
    intros H; try discriminate; try reflexivity; try (intros K; discriminate).
  exfalso. apply H. reflexivity.
Qed.


Lemma isBlackKey_sharp (key : string) :
  Game.isBlackKey key = true <-> In "#"%char (list_ascii_of_string key).
Proof.
  induction key as [|c rest IH]; simpl.
  - split; [discriminate | tauto].
  - destruct (Ascii.eqb c "#") eqn:E.
    + apply Ascii.eqb_eq in E. split; auto.
    + apply Ascii.eqb_neq in E. rewrite IH. split; [auto|].
      intros [H|H]; [contradiction | exact H].
Qed.

Lemma filter_out_absent (x : string) (l : list string) :
  ~ In x l -> filter (fun k => negb (String.eqb k x)) l = l.
Proof.
  induction l as [|y rest IH]; simpl; intros H; [reflexivity|].
  destruct (String.eqb y x) eqn:E.
  - apply String.eqb_eq in E. exfalso. apply H. left. exact E.
  - simpl. f_equal. apply IH. intros K. apply H. right. exact K.
Qed.

Lemma filter_out_spec (x y : string) (l : list string) :
  In y (filter (fun k => negb (String.eqb k x)) l) <-> In y l /\ y <> x.
Proof.
  rewrite filter_In. rewrite negb_true_iff. rewrite String.eqb_neq. tauto.
Qed.

(** ** Pointer handlers *)

Section Handlers.

Variables (g : Game.t) (sprite : PianoSprite.t).

Lemma onPointerDown_playing :
  In (sprite_id sprite) (Game.playing g) -> Game.onPointerDown g sprite = [].
Proof.
  intros H. apply isPlaying_true in H. unfold Game.onPointerDown.
  unfold sprite_id in H. rewrite H. reflexivity.
Qed.

Lemma onPointerDown_idle (cb : KeyPlayEvent) :
  Game._onKeyPlay g = Some cb ->
  ~ In (sprite_id sprite) (Game.playing g) ->
  invocations (Game.onPointerDown g sprite)
  = [(cb, PianoSprite.key (PianoSprite.meta sprite),
      PianoSprite.octave (PianoSprite.meta sprite))].
Proof.
  intros Hcb H. apply isPlaying_false in H. unfold Game.onPointerDown.
  unfold sprite_id in H. rewrite H, Hcb. reflexivity.
Qed.

Lemma onPointerUp_idle :
  ~ In (sprite_id sprite) (Game.playing g) -> Game.onPointerUp g sprite = [].
Proof.
  intros H. apply isPlaying_false in H. unfold Game.onPointerUp.
  unfold sprite_id in H. rewrite H. reflexivity.
Qed.

Lemma onPointerUp_playing (cb : KeyPlayEvent) :
  Game._onKeyStop g = Some cb ->
  In (sprite_id sprite) (Game.playing g) ->
  invocations (Game.onPointerUp g sprite)
  = [(cb, PianoSprite.key (PianoSprite.meta sprite),
      PianoSprite.octave (PianoSprite.meta sprite))].
Proof.
  intros Hcb H. apply isPlaying_true in H. unfold Game.onPointerUp.
  unfold sprite_id in H. rewrite H, Hcb. reflexivity.
Qed.

Lemma onPointerOver_sliding (cb : KeyPlayEvent) :
  Game._onKeyPlay g = Some cb ->
  Game.pointerDown g = true ->
  ~ In (sprite_id sprite) (Game.playing g) ->
  invocations (Game.onPointerOver g sprite)
  = [(cb, PianoSprite.key (PianoSprite.meta sprite),
      PianoSprite.octave (PianoSprite.meta sprite))].
Proof.
  intros Hcb Hd H. apply isPlaying_false in H. unfold Game.onPointerOver.
  unfold sprite_id in H. rewrite H, Hd, Hcb. reflexivity.
Qed.

Lemma onPointerOver_quiet :
  Game.pointerDown g = false \/ In (sprite_id sprite) (Game.playing g) ->
  Game.onPointerOver g sprite = [].
Proof.
  unfold Game.onPointerOver. intros [Hd|H].
  - rewrite Hd. reflexivity.
  - apply isPlaying_true in H. unfold sprite_id in H.
    rewrite H. rewrite andb_false_r. reflexivity.
Qed.

End Handlers.

Lemma invocations_app (a b : list Effect) :
  invocations (a ++ b) = (invocations a ++ invocations b)%list.
Proof.
  induction a as [|e rest IH]; simpl; [reflexivity|].
  destruct e; simpl; rewrite IH; reflexivity.
Qed.

(** C4. Pressing a key whose identity is already in the playing set calls
    nothing; with a play callback registered, [onPointerDown] calls it (once,
    with the key's pitch class and octave) exactly when the key is not
    marked playing. *)
Theorem onPointerDown_calls_play_iff_idle
    (g : Game.t) (sprite : PianoSprite.t) (cb : KeyPlayEvent) :
  Game._onKeyPlay g = Some cb ->
  let key := PianoSprite.key (PianoSprite.meta sprite) in
  let octave := PianoSprite.octave (PianoSprite.meta sprite) in
  (In (sprite_id sprite) (Game.playing g) ->
     invocations (Game.onPointerDown g sprite) = [])
  /\ (~ In (sprite_id sprite) (Game.playing g) ->
     invocations (Game.onPointerDown g sprite) = [(cb, key, octave)])
  /\ (In (cb, key, octave) (invocations (Game.onPointerDown g sprite))
      <-> ~ In (sprite_id sprite) (Game.playing g)).
Proof.
  intros Hcb key octave. split; [|split].
  - intros H. rewrite onPointerDown_playing by exact H. reflexivity.
  - intros H. apply onPointerDown_idle; assumption.
  - split.
    + intros Hin Hplaying.
      rewrite onPointerDown_playing in Hin by exact Hplaying. exact Hin.
    + intros H. rewrite (onPointerDown_idle g sprite cb Hcb H). left. reflexivity.
Qed.

Lemma onPointerDown_calls_play_iff_idle_witness :
  invocations (Game.onPointerDown game0 sprite_c1) = [(SendEventWith Play, "c", 1)].
Proof.
  apply (onPointerDown_calls_play_iff_idle game0 sprite_c1 (SendEventWith Play)).
  - reflexivity.
  - vm_compute. tauto.
Defined.

(** X20. With a play callback registered, hovering a key calls it (once,
    for that key) exactly when the [pointerDown] flag of the game is set and
    the key is not in the playing set; otherwise nothing is called.  The
    flag is set by the stage's [pointerdown] handler and cleared by its
    [pointerup] handler, and by nothing else. *)
Theorem onPointerOver_calls_play_iff_sliding
    (g : Game.t) (sprite : PianoSprite.t) (cb : KeyPlayEvent) :
  Game._onKeyPlay g = Some cb ->
  let key := PianoSprite.key (PianoSprite.meta sprite) in
  let octave := PianoSprite.octave (PianoSprite.meta sprite) in
  (Game.pointerDown g = true /\ ~ In (sprite_id sprite) (Game.playing g) ->
     invocations (Game.onPointerOver g sprite) = [(cb, key, octave)])
  /\ (Game.pointerDown g = false \/ In (sprite_id sprite) (Game.playing g) ->
     Game.onPointerOver g sprite = [])
  /\ (In (cb, key, octave) (invocations (Game.onPointerOver g sprite))
      <-> Game.pointerDown g = true /\ ~ In (sprite_id sprite) (Game.playing g))
  /\ Game.pointerDown (Game.stage_pointerdown g) = true
  /\ Game.pointerDown (Game.stage_pointerup g) = false.
Proof.
  intros Hcb key octave. repeat split.
  - intros [Hd H]. apply onPointerOver_sliding; assumption.
  - apply onPointerOver_quiet.
  - destruct (Game.pointerDown g) eqn:Hd; [reflexivity|].
    rewrite onPointerOver_quiet in H by (left; exact Hd). destruct H.
  - intros Hplaying.
    rewrite onPointerOver_quiet in H by (right; exact Hplaying). destruct H.
  - intros [Hd H].
    rewrite (onPointerOver_sliding g sprite cb Hcb Hd H). left. reflexivity.
Qed.

Lemma onPointerOver_calls_play_iff_sliding_witness :
  invocations (Game.onPointerOver (Game.stage_pointerdown game0) sprite_c1)
  = [(SendEventWith Play, "c", 1)].
Proof.
  apply (onPointerOver_calls_play_iff_sliding
           (Game.stage_pointerdown game0) sprite_c1 (SendEventWith Play)).
  - reflexivity.
  - split; [reflexivity | vm_compute; tauto].
Defined.

(** C9. The code where the claim fails: on the mounted component the first
    key is pressed and the button released outside of it, so the button is
    up; the stage saw no [pointerup], the [pointerDown] flag is still set,
    and hovering the key [f1], which is not playing, calls the play
    callback for it. *)
Theorem hover_after_release_outside_plays :
  let es := [Canvas.KeyPointerDown 0; Canvas.KeyPointerUpOutside 0] in
  let c := fst (Canvas.run parse_known mounted es) in
  buttonHeld es = false
  /\ ~ In "f1" (playing_of c)
  /\ option_map Game.pointerDown (Canvas.appRef c) = Some true
  /\ invocations (snd (Canvas.step parse_known c (Canvas.KeyPointerOver 5)))
     = [(SendEventWith Play, "f", 1)].
Proof.
  vm_compute. repeat split. tauto.
Qed.

(** ** The playing set under every operation *)






Lemma NoDup_snoc (x : string) (l : list string) :
  NoDup (l ++ [x]) <-> NoDup l /\ ~ In x l.
Proof.
  split.
  - intros H. apply NoDup_remove in H. rewrite app_nil_r in H. exact H.
  - intros [H1 H2]. apply NoDup_app.
    + exact H1.
    + constructor; [simpl; tauto | constructor].
    + intros y Hy [Hx|[]]. subst y. contradiction.
Qed.

Lemma count_occ_filter_out (x id : string) (l : list string) :
  id <> x ->
  count_occ string_dec (filter (fun k => negb (String.eqb k x)) l) id
  = count_occ string_dec l id.
Proof.
  intros Hne. induction l as [|y rest IH]; simpl; [reflexivity|].
  destruct (String.eqb y x) eqn:E; simpl.
  - apply String.eqb_eq in E. subst y.
    destruct (string_dec x id) as [->|_]; [contradiction Hne; reflexivity | exact IH].
  - destruct (string_dec y id); rewrite IH; reflexivity.
Qed.

Lemma unmount_frame (c : Canvas.t) :
  playing_of (fst (Canvas.unmount c)) = playing_of c
  /\ Canvas.wsRef (fst (Canvas.unmount c)) = Canvas.wsRef c
  /\ Canvas.sockets (fst (Canvas.unmount c)) = Canvas.sockets c
  /\ Canvas.watchers (fst (Canvas.unmount c)) = Canvas.watchers c
  /\ Canvas.reconnectBackoff (fst (Canvas.unmount c)) = Canvas.reconnectBackoff c
  /\ Canvas.timers (fst (Canvas.unmount c)) = Canvas.timers c
  /\ Canvas.isMounted (fst (Canvas.unmount c)) = false.
Proof.
  unfold Canvas.unmount, playing_of.
  destruct (Canvas.appRef c) as [g|] eqn:E; simpl; rewrite ?E; repeat split.
Qed.

Lemma unmount_effects (c : Canvas.t) :
  synthCalls (snd (Canvas.unmount c)) = []
  /\ sends (snd (Canvas.unmount c)) = []
  /\ delays (snd (Canvas.unmount c)) = []
  /\ opened (snd (Canvas.unmount c)) = [].
Proof.
  unfold Canvas.unmount.
  destruct (Canvas.appRef c) eqn:E; simpl; rewrite ?E;
    destruct (Canvas.wsRef c); repeat split.
Qed.

Lemma setWatchers_frame (c : Canvas.t) (w : JsValue) :
  playing_of (fst (Canvas.setWatchers c w)) = playing_of c
  /\ Canvas.wsRef (fst (Canvas.setWatchers c w)) = Canvas.wsRef c
  /\ Canvas.sockets (fst (Canvas.setWatchers c w)) = Canvas.sockets c
  /\ Canvas.reconnectBackoff (fst (Canvas.setWatchers c w)) = Canvas.reconnectBackoff c
  /\ Canvas.timers (fst (Canvas.setWatchers c w)) = Canvas.timers c.
Proof.
  unfold Canvas.setWatchers.
  destruct (Canvas.isMounted c); [|repeat split].
  destruct (Canvas.validChild w); [repeat split|].
  destruct (unmount_frame (Canvas.storeWatchers c w)) as (H1 & H2 & H3 & _ & H5 & H6 & _).
  repeat split; assumption.
Qed.

Lemma setWatchers_effects (c : Canvas.t) (w : JsValue) :
  synthCalls (snd (Canvas.setWatchers c w)) = []
  /\ sends (snd (Canvas.setWatchers c w)) = []
  /\ delays (snd (Canvas.setWatchers c w)) = []
  /\ opened (snd (Canvas.setWatchers c w)) = [].
Proof.
  unfold Canvas.setWatchers.
  destruct (Canvas.isMounted c); [|repeat split].
  destruct (Canvas.validChild w); [repeat split|].
  apply unmount_effects.
Qed.

Section PlayingSet.

Variable JSON_parse : string -> Result JsValue.

Lemma app_startPlaying_change (c : Canvas.t) (key octave : JsValue) :
  playing_change (playing_of c) (playing_of (fst (Canvas.app_startPlaying c key octave))).
Proof.
  unfold Canvas.app_startPlaying, playing_of.
  destruct (Canvas.appRef c) as [g|] eqn:E; simpl.
  - apply Pushed with (id := Game.keyId key octave). reflexivity.
  - apply Unchanged. rewrite E. reflexivity.
Qed.

Lemma app_stopPlaying_change (c : Canvas.t) (key octave : JsValue) :
  playing_change (playing_of c) (playing_of (fst (Canvas.app_stopPlaying c key octave))).
Proof.
  unfold Canvas.app_stopPlaying, playing_of.
  destruct (Canvas.appRef c) as [g|] eqn:E; simpl.
  - apply Filtered with (id := Game.keyId key octave). reflexivity.
  - apply Unchanged. rewrite E. reflexivity.
Qed.

Lemma onmessage_change (c : Canvas.t) (data : string) :
  playing_change (playing_of c) (playing_of (fst (Canvas.onmessage JSON_parse c data))).
Proof.
  unfold Canvas.onmessage, Canvas.onmessage_try.
  destruct (JSON_parse data) as [parsed|e]; simpl; [|apply Unchanged; reflexivity].
  destruct (getProp parsed "type") as [type|e]; simpl; [|apply Unchanged; reflexivity].
  destruct (getProp parsed "message") as [message|e]; simpl;
    [|apply Unchanged; reflexivity].
  destruct (Canvas.isCase type Play).
  { destruct (getProp message "key") as [key|e]; simpl; [|apply Unchanged; reflexivity].
    destruct (getProp message "octave") as [octave|e]; simpl;
      [|apply Unchanged; reflexivity].
    pose proof (app_startPlaying_change c key octave) as H.
    destruct (Canvas.app_startPlaying c key octave). exact H. }
  destruct (Canvas.isCase type Stop).
  { destruct (getProp message "key") as [key|e]; simpl; [|apply Unchanged; reflexivity].
    destruct (getProp message "octave") as [octave|e]; simpl;
      [|apply Unchanged; reflexivity].
    pose proof (app_stopPlaying_change c key octave) as H.
    destruct (Canvas.app_stopPlaying c key octave). exact H. }
  destruct (Canvas.isCase type Watchers); [|apply Unchanged; reflexivity].
  destruct (setWatchers_frame c message) as (H & _).
  destruct (Canvas.setWatchers c message). apply Unchanged. exact H.
Qed.

Lemma on_key_playing (c : Canvas.t) (i : nat)
    (handler : Game.t -> PianoSprite.t -> list Effect) (bubble : Game.t -> Game.t) :
  (forall g, Game.playing (bubble g) = Game.playing g) ->
  playing_of (fst (Canvas.on_key c i handler bubble)) = playing_of c.
Proof.
  intros Hb. unfold Canvas.on_key, playing_of.
  destruct (Canvas.appRef c) as [g|] eqn:E; simpl; [|rewrite E; reflexivity].
  destruct (Game.destroyed (Game.app g)); simpl; [rewrite E; reflexivity|].
  destruct (nth_error (Game.children (Game.app g)) i); simpl.
  - apply Hb.
  - rewrite E. reflexivity.
Qed.

Lemma on_stage_playing (c : Canvas.t) (handler : Game.t -> Game.t) :
  (forall g, Game.playing (handler g) = Game.playing g) ->
  playing_of (fst (Canvas.on_stage c handler)) = playing_of c.
Proof.
  intros Hb. unfold Canvas.on_stage, playing_of.
  destruct (Canvas.appRef c) as [g|] eqn:E; simpl; [|rewrite E; reflexivity].
  destruct (Game.destroyed (Game.app g)); simpl; [rewrite E; reflexivity | apply Hb].
Qed.

Lemma initApp_playing (c : Canvas.t) (boot : Canvas.Boot) :
  playing_of (fst (Canvas.initApp c boot)) = playing_of c.
Proof.
  unfold Canvas.initApp, playing_of.
  destruct (Canvas.appRef c) as [g|] eqn:E; simpl; [rewrite E; reflexivity|].
  destruct boot; simpl; rewrite ?E; reflexivity.
Qed.

Lemma step_change (c : Canvas.t) (e : Canvas.Event) :
  playing_change (playing_of c) (playing_of (fst (Canvas.step JSON_parse c e))).
Proof.
  destruct e; simpl; try (apply Unchanged; reflexivity).
  - apply Unchanged. unfold Canvas.mount.
    pose proof (initApp_playing c boot) as H.
    destruct (Canvas.initApp c boot). exact H.
  - apply Unchanged. unfold Canvas.unmount, playing_of.
    destruct (Canvas.appRef c) as [g|] eqn:E; simpl; [reflexivity | rewrite E; reflexivity].
  - apply onmessage_change.
  - apply Unchanged. destruct (nth_error (Canvas.timers c) n); reflexivity.
  - apply Unchanged. apply on_stage_playing. reflexivity.
  - apply Unchanged. apply on_stage_playing. reflexivity.
  - apply Unchanged. apply on_stage_playing. reflexivity.
  - apply Unchanged. apply on_key_playing. reflexivity.
  - apply Unchanged. apply on_key_playing. reflexivity.
  - apply Unchanged. apply on_key_playing. reflexivity.
  - apply Unchanged. apply on_key_playing. reflexivity.
  - apply Unchanged. apply on_key_playing. reflexivity.
Qed.

End PlayingSet.

(** C1, as stated, fails: on the mounted component, pressing and releasing
    the first key [c1] with nothing received in between calls the play
    callback once and the stop callback not at all. *)
Lemma press_release_without_echo_no_stop :
  let '(c, out) :=
    Canvas.run parse_known mounted [Canvas.KeyPointerDown 0; Canvas.KeyPointerUp 0] in
  ~ (~ In "c1" (playing_of c)
     /\ fired (SendEventWith Play) "c" 1 out = 1%nat
     /\ fired (SendEventWith Stop) "c" 1 out = 1%nat).
Proof.
  vm_compute. intros [_ [_ H]]. discriminate H.
Qed.

(** C1, amended. For a key that is not in the playing set, with both
    callbacks registered: [onPointerDown] calls the play callback exactly
    once; with no inbound event before the release, [onPointerUp] calls
    nothing (one play call, no stop call; the handlers do not touch the
    playing set).  When the Play event for the key is received before the
    release ([startPlaying]), [onPointerUp] calls the stop callback exactly
    once, and after the Stop event is received ([stopPlaying]) the key is
    not in the playing set. *)
Theorem press_release_round_trip
    (g : Game.t) (sprite : PianoSprite.t) (play stop : KeyPlayEvent) :
  Game._onKeyPlay g = Some play ->
  Game._onKeyStop g = Some stop ->
  ~ In (sprite_id sprite) (Game.playing g) ->
  let key := PianoSprite.key (PianoSprite.meta sprite) in
  let octave := PianoSprite.octave (PianoSprite.meta sprite) in
  let g1 := fst (Game.startPlaying g (VStr key) (VNum octave)) in
  let g2 := fst (Game.stopPlaying g1 (VStr key) (VNum octave)) in
  invocations (Game.onPointerDown g sprite ++ Game.onPointerUp g sprite)
    = [(play, key, octave)]
  /\ invocations (Game.onPointerDown g sprite ++ Game.onPointerUp g1 sprite)
    = [(play, key, octave); (stop, key, octave)]
  /\ ~ In (sprite_id sprite) (Game.playing g2)
  /\ (forall JSON_parse c i,
        playing_of (fst (Canvas.step JSON_parse c (Canvas.KeyPointerDown i)))
        = playing_of c
        /\ playing_of (fst (Canvas.step JSON_parse c (Canvas.KeyPointerUp i)))
           = playing_of c).
Proof.
  intros Hplay Hstop Hidle key octave g1 g2.
  assert (H1 : In (sprite_id sprite) (Game.playing g1)).
  { unfold g1. simpl. apply in_or_app. right. left. reflexivity. }
  split; [|split; [|split]]; cycle 3.
  { intros JSON_parse c i. simpl. split; apply on_key_playing; reflexivity. }
  - rewrite invocations_app, (onPointerDown_idle g sprite play Hplay Hidle).
    rewrite onPointerUp_idle by exact Hidle. reflexivity.
  - rewrite invocations_app, (onPointerDown_idle g sprite play Hplay Hidle).
    rewrite (onPointerUp_playing g1 sprite stop Hstop H1). reflexivity.
  - unfold g2. simpl. intros H. apply filter_out_spec in H.
    destruct H as [_ H]. apply H. reflexivity.
Qed.

Lemma press_release_round_trip_witness :
  invocations (Game.onPointerDown game0 sprite_c1 ++ Game.onPointerUp game0 sprite_c1)
    = [(SendEventWith Play, "c", 1)]
  /\ invocations
       (Game.onPointerDown game0 sprite_c1
        ++ Game.onPointerUp (fst (Game.startPlaying game0 (VStr "c") (VNum 1))) sprite_c1)
    = [(SendEventWith Play, "c", 1); (SendEventWith Stop, "c", 1)]
  /\ ~ In (sprite_id sprite_c1)
        (Game.playing
           (fst (Game.stopPlaying (fst (Game.startPlaying game0 (VStr "c") (VNum 1)))
                                  (VStr "c") (VNum 1)))).
Proof.
  destruct (press_release_round_trip game0 sprite_c1
              (SendEventWith Play) (SendEventWith Stop))
    as (Hquiet & Hecho & Hgone & _).
  - reflexivity.
  - reflexivity.
  - vm_compute. tauto.
  - split; [exact Hquiet | split; [exact Hecho | exact Hgone]].
Defined.

(** C2, as stated, fails: the same Play event received twice leaves the
    identity [c1] twice in the playing set. *)
Lemma play_twice_duplicates :
  NoDup (playing_of mounted)
  /\ ~ NoDup (playing_of
                (fst (Canvas.run parse_known mounted
                        [Canvas.WsMessage (key_event_text Play "c" 1);
                         Canvas.WsMessage (key_event_text Play "c" 1)]))).
Proof.
  split.
  - vm_compute. constructor.
  - vm_compute. intros H. inversion H as [|x l Hin Hnd]. apply Hin. left. reflexivity.
Qed.

(** C2, amended. [stopPlaying(k, o)] removes every occurrence of the
    identity of [(k, o)], keeps the other entries as they are and keeps
    "at most once"; [startPlaying(k, o)] appends the identity without
    looking, so "at most once" holds after it exactly when it held before
    and the identity was not in the set; every event of the component
    changes the playing set by nothing, by one such append or by one such
    removal, so every operation other than a Play for a key already in the
    set keeps "at most once". *)
Theorem playing_set_at_most_once (JSON_parse : string -> Result JsValue) :
  (forall g key octave,
      let g' := fst (Game.stopPlaying g key octave) in
      ~ In (Game.keyId key octave) (Game.playing g')
      /\ (forall id, id <> Game.keyId key octave ->
            count_occ string_dec (Game.playing g') id
            = count_occ string_dec (Game.playing g) id)
      /\ (NoDup (Game.playing g) -> NoDup (Game.playing g')))
  /\ (forall g key octave,
        NoDup (Game.playing (fst (Game.startPlaying g key octave)))
        <-> NoDup (Game.playing g) /\ ~ In (Game.keyId key octave) (Game.playing g))
  /\ (forall c e,
        playing_change (playing_of c) (playing_of (fst (Canvas.step JSON_parse c e))))
  /\ (forall c e,
        NoDup (playing_of c) ->
        NoDup (playing_of (fst (Canvas.step JSON_parse c e)))
        \/ exists id, In id (playing_of c)
                      /\ playing_of (fst (Canvas.step JSON_parse c e))
                         = (playing_of c ++ [id])%list).
Proof.
  split; [|split; [|split]].
  - intros g key octave g'. unfold g'. simpl. split; [|split].
    + intros H. apply filter_out_spec in H. destruct H as [_ H]. apply H. reflexivity.
    + intros id Hne. apply count_occ_filter_out. exact Hne.
    + apply NoDup_filter.
  - intros g key octave. simpl. apply NoDup_snoc.
  - apply step_change.
  - intros c e Hnd. destruct (step_change JSON_parse c e) as [H|id H|id H].
    + left. rewrite H. exact Hnd.
    + destruct (in_dec string_dec id (playing_of c)) as [Hin|Hout].
      * right. exists id. split; assumption.
      * left. rewrite H. apply NoDup_snoc. split; assumption.
    + left. rewrite H. apply NoDup_filter. exact Hnd.
Qed.

Lemma playing_set_at_most_once_witness :
  NoDup (Game.playing (fst (Game.startPlaying game0 (VStr "c") (VNum 1))))
  /\ ~ In "c1"
        (Game.playing
           (fst (Game.stopPlaying (fst (Game.startPlaying game0 (VStr "c") (VNum 1)))
                                  (VStr "c") (VNum 1)))).
Proof.
  destruct (playing_set_at_most_once parse_known) as (Hstop & Hstart & _).
  split.
  - apply Hstart. split; [vm_compute; constructor | vm_compute; tauto].
  - apply (Hstop (fst (Game.startPlaying game0 (VStr "c") (VNum 1)))
                 (VStr "c") (VNum 1)).
Defined.

(** ** Inbound messages *)




(** C6. A payload that [JSON.parse] rejects is caught: the handler returns
    normally, logs the problem, and leaves the component where it was,
    playing set, watcher count, backoff, timers and socket included; nothing
    else happens. *)
Theorem malformed_payload_dropped (JSON_parse : string -> Result JsValue)
    (c : Canvas.t) (data : string) (e : Exn) :
  JSON_parse data = Throw e ->
  Canvas.onmessage JSON_parse c data
  = (c, [Log Info "websocket message received" [];
         Log Debug data [];
         Log Error "problem parsing websocket message: %s" []])
  /\ playing_of (fst (Canvas.step JSON_parse c (Canvas.WsMessage data))) = playing_of c
  /\ Canvas.watchers (fst (Canvas.step JSON_parse c (Canvas.WsMessage data)))
     = Canvas.watchers c.
Proof.
  intros H.
  assert (K : Canvas.onmessage JSON_parse c data
              = (c, [Log Info "websocket message received" [];
                     Log Debug data [];
                     Log Error "problem parsing websocket message: %s" []])).
  { unfold Canvas.onmessage, Canvas.onmessage_try. rewrite H. reflexivity. }
  split; [exact K|]. simpl. rewrite K. split; reflexivity.
Qed.

Lemma malformed_payload_dropped_witness :
  Canvas.onmessage parse_known mounted "not json"
  = (mounted, [Log Info "websocket message received" [];
               Log Debug "not json" [];
               Log Error "problem parsing websocket message: %s" []]).
Proof.
  apply (malformed_payload_dropped parse_known mounted "not json" SyntaxError).
  reflexivity.
Defined.

(** ** Runs of events *)

Section Runs.

Variable JSON_parse : string -> Result JsValue.

Lemma run_cons (c : Canvas.t) (e : Canvas.Event) (es : list Canvas.Event) :
  fst (Canvas.run JSON_parse c (e :: es))
  = fst (Canvas.run JSON_parse (fst (Canvas.step JSON_parse c e)) es).
Proof.
  simpl. destruct (Canvas.step JSON_parse c e) as [c1 out1]. simpl.
  destruct (Canvas.run JSON_parse c1 es). reflexivity.
Qed.

Lemma app_startPlaying_watchers (c : Canvas.t) (key octave : JsValue) :
  Canvas.watchers (fst (Canvas.app_startPlaying c key octave)) = Canvas.watchers c.
Proof.
  unfold Canvas.app_startPlaying. destruct (Canvas.appRef c); reflexivity.
Qed.

Lemma app_stopPlaying_watchers (c : Canvas.t) (key octave : JsValue) :
  Canvas.watchers (fst (Canvas.app_stopPlaying c key octave)) = Canvas.watchers c.
Proof.
  unfold Canvas.app_stopPlaying. destruct (Canvas.appRef c); reflexivity.
Qed.

Lemma onmessage_watchers (c : Canvas.t) (data : string) :
  Canvas.isWatchersMessage JSON_parse data = false ->
  Canvas.watchers (fst (Canvas.onmessage JSON_parse c data)) = Canvas.watchers c.
Proof.
  unfold Canvas.isWatchersMessage, Canvas.onmessage, Canvas.onmessage_try.
  destruct (JSON_parse data) as [parsed|e]; simpl; [|reflexivity].
  destruct (getProp parsed "type") as [type|e]; simpl; [|reflexivity].
  intros Hw.
  destruct (getProp parsed "message") as [message|e]; simpl; [|reflexivity].
  destruct (Canvas.isCase type Play).
  { destruct (getProp message "key") as [key|e]; simpl; [|reflexivity].
    destruct (getProp message "octave") as [octave|e]; simpl; [|reflexivity].
    pose proof (app_startPlaying_watchers c key octave) as H.
    destruct (Canvas.app_startPlaying c key octave). exact H. }
  destruct (Canvas.isCase type Stop).
  { destruct (getProp message "key") as [key|e]; simpl; [|reflexivity].
    destruct (getProp message "octave") as [octave|e]; simpl; [|reflexivity].
    pose proof (app_stopPlaying_watchers c key octave) as H.
    destruct (Canvas.app_stopPlaying c key octave). exact H. }
  rewrite Hw. reflexivity.
Qed.

Lemma on_key_watchers (c : Canvas.t) (i : nat)
    (handler : Game.t -> PianoSprite.t -> list Effect) (bubble : Game.t -> Game.t) :
  Canvas.watchers (fst (Canvas.on_key c i handler bubble)) = Canvas.watchers c.
Proof.
  unfold Canvas.on_key. destruct (Canvas.appRef c) as [g|]; [|reflexivity].
  destruct (Game.destroyed (Game.app g)); [reflexivity|].
  destruct (nth_error (Game.children (Game.app g)) i); reflexivity.
Qed.

Lemma on_stage_watchers (c : Canvas.t) (handler : Game.t -> Game.t) :
  Canvas.watchers (fst (Canvas.on_stage c handler)) = Canvas.watchers c.
Proof.
  unfold Canvas.on_stage. destruct (Canvas.appRef c) as [g|]; [|reflexivity].
  destruct (Game.destroyed (Game.app g)); reflexivity.
Qed.

Lemma step_watchers (c : Canvas.t) (e : Canvas.Event) :
  otherThanWatchers JSON_parse e = true ->
  Canvas.watchers (fst (Canvas.step JSON_parse c e)) = Canvas.watchers c.
Proof.
  destruct e; simpl; intros H; try reflexivity.
  - unfold Canvas.mount, Canvas.initApp.
    destruct (Canvas.appRef c) eqn:E; [reflexivity|].
    destruct boot; simpl; rewrite ?E; reflexivity.
  - unfold Canvas.unmount. destruct (Canvas.appRef c); reflexivity.
  - apply onmessage_watchers. apply negb_true_iff. exact H.
  - destruct (nth_error (Canvas.timers c) n); reflexivity.
  - apply on_stage_watchers.
  - apply on_stage_watchers.
  - apply on_stage_watchers.
  - apply on_key_watchers.
  - apply on_key_watchers.
  - apply on_key_watchers.
  - apply on_key_watchers.
  - apply on_key_watchers.
Qed.

Lemma run_watchers (es : list Canvas.Event) (c : Canvas.t) :
  Forall (fun e => otherThanWatchers JSON_parse e = true) es ->
  Canvas.watchers (fst (Canvas.run JSON_parse c es)) = Canvas.watchers c.
Proof.
  revert c. induction es as [|e rest IH]; intros c H; [reflexivity|].
  inversion H as [|e' rest' He Hrest]; subst.
  rewrite run_cons, IH by exact Hrest. apply step_watchers. exact He.
Qed.

Lemma failures_backoff (n : nat) (c : Canvas.t) :
  Canvas.timers c = [] ->
  Canvas.reconnectBackoff (fst (Canvas.run JSON_parse c (failures n)))
  = Canvas.reconnectBackoff c * 2 ^ Z.of_nat n
  /\ Canvas.timers (fst (Canvas.run JSON_parse c (failures n))) = [].
Proof.
  revert c. induction n as [|n IH]; intros c Ht.
  - simpl. split; [lia | exact Ht].
  - cbn [failures]. rewrite run_cons, run_cons.
    set (c2 := fst (Canvas.step JSON_parse (fst (Canvas.step JSON_parse c Canvas.WsClose))
                      (Canvas.TimerFired 0))).
    assert (H2 : Canvas.reconnectBackoff c2 = Canvas.reconnectBackoff c * 2
                 /\ Canvas.timers c2 = []).
    { unfold c2. simpl. rewrite Ht. simpl. split; reflexivity. }
    destruct H2 as [Hb Htm]. destruct (IH c2 Htm) as [IHb IHt].
    split; [|exact IHt]. rewrite IHb, Hb.
    rewrite Nat2Z.inj_succ, Z.pow_succ_r by lia. lia.
Qed.

Lemma onclose_delay (c : Canvas.t) :
  snd (Canvas.step JSON_parse c Canvas.WsClose)
  = [Log Info "websocket connection closed" [];
     SetTimeout (Canvas.reconnectBackoff c)].
Proof. reflexivity. Qed.

Lemma mount_backoff (boot : Canvas.Boot) :
  Canvas.reconnectBackoff (fst (Canvas.step JSON_parse Canvas.initial (Canvas.Mount boot)))
  = 100
  /\ Canvas.timers (fst (Canvas.step JSON_parse Canvas.initial (Canvas.Mount boot))) = [].
Proof. destruct boot; split; reflexivity. Qed.

End Runs.

Lemma run_step (JSON_parse : string -> Result JsValue)
    (c c1 : Canvas.t) (e : Canvas.Event) (out1 : list Effect) (es : list Canvas.Event) :
  Canvas.step JSON_parse c e = (c1, out1) ->
  Canvas.run JSON_parse c (e :: es)
  = (fst (Canvas.run JSON_parse c1 es),
     (out1 ++ snd (Canvas.run JSON_parse c1 es))%list).
Proof.
  intros H. simpl. rewrite H. destruct (Canvas.run JSON_parse c1 es). reflexivity.
Qed.

(** C10. A fresh component shows 1 watcher, and after any run of events
    none of which is the receipt of a Watchers message (mounting, pointer
    input, render ticks, socket open and close, reconnect timers, Play and
    Stop messages, malformed messages, unmounting) it still shows 1. *)
Theorem watchers_stay_one (JSON_parse : string -> Result JsValue)
    (es : list Canvas.Event) :
  Forall (fun e => otherThanWatchers JSON_parse e = true) es ->
  Canvas.watchers Canvas.initial = VNum 1
  /\ Canvas.watchers (fst (Canvas.run JSON_parse Canvas.initial es)) = VNum 1.
Proof.
  intros H. split; [reflexivity|].
  rewrite run_watchers by exact H. reflexivity.
Qed.

Lemma watchers_stay_one_witness :
  Canvas.watchers
    (fst (Canvas.run parse_known Canvas.initial
            [Canvas.Mount (Canvas.Ready view0); Canvas.WsOpen;
             Canvas.KeyPointerDown 0;
             Canvas.WsMessage (key_event_text Play "c" 1);
             Canvas.Tick; Canvas.KeyPointerUp 0;
             Canvas.WsMessage (key_event_text Stop "c" 1);
             Canvas.WsMessage "not json";
             Canvas.WsClose; Canvas.TimerFired 0; Canvas.Unmount]))
  = VNum 1.
Proof.
  apply (watchers_stay_one parse_known).
  repeat constructor.
Defined.

(** C3. The reconnect delays: the first close after mounting schedules the
    reconnect 100 ms later; every further failed attempt (close, timer
    fires) doubles the delay, so the close after [n] failures in a row
    schedules [100 * 2^n] ms, for every [n] and beyond any bound; a
    successful open puts the delay back to 100 ms at once, and the sequence
    starts over from there. *)
Theorem reconnect_backoff_sequence (JSON_parse : string -> Result JsValue) :
  (forall boot n,
      let c0 := fst (Canvas.step JSON_parse Canvas.initial (Canvas.Mount boot)) in
      snd (Canvas.step JSON_parse (fst (Canvas.run JSON_parse c0 (failures n)))
             Canvas.WsClose)
      = [Log Info "websocket connection closed" [];
         SetTimeout (100 * 2 ^ Z.of_nat n)])
  /\ (forall bound, exists n, bound < 100 * 2 ^ Z.of_nat n)
  /\ (forall c, Canvas.reconnectBackoff (fst (Canvas.step JSON_parse c Canvas.WsOpen)) = 100)
  /\ (forall c n,
        Canvas.timers c = [] ->
        let c1 := fst (Canvas.step JSON_parse c Canvas.WsOpen) in
        snd (Canvas.step JSON_parse (fst (Canvas.run JSON_parse c1 (failures n)))
               Canvas.WsClose)
        = [Log Info "websocket connection closed" [];
           SetTimeout (100 * 2 ^ Z.of_nat n)]).
Proof.
  split; [|split; [|split]].
  - intros boot n c0. rewrite onclose_delay.
    destruct (mount_backoff JSON_parse boot) as [Hb Ht]. fold c0 in Hb, Ht.
    destruct (failures_backoff JSON_parse n c0 Ht) as [H _].
    rewrite H, Hb. reflexivity.
  - intros bound. exists (Z.to_nat (Z.max 0 bound)).
    rewrite Z2Nat.id by lia.
    pose proof (Z.pow_gt_lin_r 2 (Z.max 0 bound)) as H.
    assert (Z.max 0 bound < 2 ^ Z.max 0 bound) by (apply H; lia). lia.
  - intros c. reflexivity.
  - intros c n Ht c1. rewrite onclose_delay.
    assert (Ht1 : Canvas.timers c1 = []) by exact Ht.
    destruct (failures_backoff JSON_parse n c1 Ht1) as [H _].
    rewrite H. reflexivity.
Qed.

Lemma reconnect_backoff_sequence_witness :
  snd (Canvas.step parse_known
         (fst (Canvas.run parse_known mounted (failures 3))) Canvas.WsClose)
  = [Log Info "websocket connection closed" []; SetTimeout 800]
  /\ snd (Canvas.step parse_known
            (fst (Canvas.run parse_known
                    (fst (Canvas.step parse_known mounted Canvas.WsOpen))
                    (failures 2)))
            Canvas.WsClose)
     = [Log Info "websocket connection closed" []; SetTimeout 400].
Proof.
  destruct (reconnect_backoff_sequence parse_known) as (Hmount & _ & _ & Hopen).
  split.
  - apply (Hmount (Canvas.Ready view0) 3%nat).
  - apply (Hopen mounted 2%nat). reflexivity.
Defined.

(** ** Layout and rendering *)

Lemma createPianoKeys_fold (l : list nat) (g : Game.t) :
  let g' :=
    fold_left
      (fun g i =>
         Game.drawPianoKey g
           (nth (i mod List.length Game.PIANO_KEYS) Game.PIANO_KEYS "")
           (Z.of_nat (i / List.length Game.PIANO_KEYS) + 1) i) l g in
  Game.children (Game.app g')
  = (Game.children (Game.app g)
     ++ map (layoutKey (Game.view (Game.app g)) (Game.keyCount g)) l)%list
  /\ Game.keyCount g' = Game.keyCount g
  /\ Game.view (Game.app g') = Game.view (Game.app g).
Proof.
  revert g. induction l as [|i rest IH]; intros g; simpl.
  - rewrite app_nil_r. repeat split.
  - destruct (IH (Game.drawPianoKey g
                    (nth (i mod 12) Game.PIANO_KEYS "")
                    (Z.of_nat (i / 12) + 1) i)) as (Hc & Hk & Hv).
    simpl in Hc, Hk, Hv. simpl. rewrite Hc, Hk, Hv.
    rewrite <- app_assoc. repeat split.
Qed.

Lemma createPianoKeys_children (g : Game.t) :
  Game.children (Game.app g) = [] ->
  Game.children (Game.app (Game.createPianoKeys g))
  = map (layoutKey (Game.view (Game.app g)) (Game.keyCount g))
        (seq 0 (Game.keyCount g)).
Proof.
  intros Hnil. unfold Game.createPianoKeys.
  destruct (createPianoKeys_fold (seq 0 (Game.keyCount g)) g) as (Hc & _ & _).
  simpl in Hc. simpl. rewrite Hc, Hnil. reflexivity.
Qed.



(** C8. One render pass gives every key its tint: the active colour
    assigned to it when its identity is in the playing set, otherwise its
    resting colour, black when the pitch class contains [#] and white when
    it does not; nothing else of the key changes. *)
Theorem render_tints (g : Game.t) (i : nat) (sprite : PianoSprite.t) :
  nth_error (Game.children (Game.app g)) i = Some sprite ->
  let key := PianoSprite.key (PianoSprite.meta sprite) in
  exists sprite',
    nth_error (Game.children (Game.app (Game.render g))) i = Some sprite'
    /\ sprite' = PianoSprite.set_tint sprite (PianoSprite.tint sprite')
    /\ (In (sprite_id sprite) (Game.playing g) ->
        PianoSprite.tint sprite' = PianoSprite.playingColor (PianoSprite.meta sprite))
    /\ (~ In (sprite_id sprite) (Game.playing g) ->
        In "#"%char (list_ascii_of_string key) ->
        PianoSprite.tint sprite' = 0x000000)
    /\ (~ In (sprite_id sprite) (Game.playing g) ->
        ~ In "#"%char (list_ascii_of_string key) ->
        PianoSprite.tint sprite' = 0xffffff)
    /\ List.length (Game.children (Game.app (Game.render g)))
       = List.length (Game.children (Game.app g))
    /\ Game.playing (Game.render g) = Game.playing g.
Proof.
  intros Hn key. exists (Game.render_sprite g sprite).
  split.
  { simpl. rewrite nth_error_map, Hn. reflexivity. }
  unfold Game.render_sprite. fold key.
  split; [|split; [|split; [|split; [|split]]]].
  - destruct (Game.isPlaying g _ _); reflexivity.
  - intros H. apply isPlaying_true in H. unfold sprite_id in H.
    fold key in H. rewrite H. reflexivity.
  - intros H Hsharp. apply isPlaying_false in H. unfold sprite_id in H.
    fold key in H. rewrite H.
    apply isBlackKey_sharp in Hsharp. rewrite Hsharp. reflexivity.
  - intros H Hnat. apply isPlaying_false in H. unfold sprite_id in H.
    fold key in H. rewrite H.
    destruct (Game.isBlackKey key) eqn:E; [|reflexivity].
    apply isBlackKey_sharp in E. contradiction.
  - simpl. apply length_map.
  - reflexivity.
Qed.

Lemma render_tints_witness :
  exists sprite',
    nth_error
      (Game.children
         (Game.app (Game.render (fst (Game.startPlaying game0 (VStr "c") (VNum 1)))))) 0
    = Some sprite'
    /\ PianoSprite.tint sprite' = 0xe0fefe.
Proof.
  destruct (render_tints (fst (Game.startPlaying game0 (VStr "c") (VNum 1))) 0 sprite_c1)
    as (sprite' & Hn & _ & Hplaying & _).
  - reflexivity.
  - exists sprite'. split; [exact Hn|]. rewrite Hplaying.
    + reflexivity.
    + vm_compute. left. reflexivity.
Defined.

(** * Further properties of the game *)

Lemma bool_eq_by_iff (a b : bool) : (a = true <-> b = true) -> a = b.
Proof.
  destruct a, b; intros [H1 H2]; try reflexivity.
  - symmetry. apply H1. reflexivity.
  - apply H2. reflexivity.
Qed.

Lemma distinct_NoDup (l : list string) : distinct l = true -> NoDup l.
Proof.
  induction l as [|x rest IH]; simpl; intros H; [constructor|].
  apply andb_true_iff in H. destruct H as [Hx Hrest].
  constructor; [|apply IH; exact Hrest].
  intros Hin. apply negb_true_iff in Hx.
  assert (K : existsb (String.eqb x) rest = true).
  { apply existsb_exists. exists x. split; [exact Hin | apply String.eqb_refl]. }
  rewrite K in Hx. discriminate Hx.
Qed.

Lemma filter_out_swap (a b : string) (l : list string) :
  filter (fun k => negb (String.eqb k b)) (filter (fun k => negb (String.eqb k a)) l)
  = filter (fun k => negb (String.eqb k a)) (filter (fun k => negb (String.eqb k b)) l).
Proof.
  induction l as [|x rest IH]; [reflexivity|]. simpl.
  destruct (String.eqb x a) eqn:E1; destruct (String.eqb x b) eqn:E2;
    simpl; rewrite ?E1, ?E2; simpl; rewrite IH; reflexivity.
Qed.

(** X1. Releasing a key (pointer up, pointer out and pointer up outside all
    run [onPointerUp]) calls the stop callback, once and for that key,
    exactly when the key's identity is in the playing set; on a key that is
    not playing it does nothing at all, not even a log line. *)
Theorem onPointerUp_calls_stop_iff_playing
    (g : Game.t) (sprite : PianoSprite.t) (cb : KeyPlayEvent) :
  Game._onKeyStop g = Some cb ->
  let key := PianoSprite.key (PianoSprite.meta sprite) in
  let octave := PianoSprite.octave (PianoSprite.meta sprite) in
  (In (sprite_id sprite) (Game.playing g) ->
     invocations (Game.onPointerUp g sprite) = [(cb, key, octave)])
  /\ (~ In (sprite_id sprite) (Game.playing g) -> Game.onPointerUp g sprite = [])
  /\ (In (cb, key, octave) (invocations (Game.onPointerUp g sprite))
      <-> In (sprite_id sprite) (Game.playing g)).
Proof.
  intros Hcb key octave. split; [|split].
  - intros H. apply onPointerUp_playing; assumption.
  - apply onPointerUp_idle.
  - split.
    + intros Hin. destruct (in_dec string_dec (sprite_id sprite) (Game.playing g))
        as [Hp|Hp]; [exact Hp|].
      rewrite onPointerUp_idle in Hin by exact Hp. destruct Hin.
    + intros H. rewrite (onPointerUp_playing g sprite cb Hcb H). left. reflexivity.
Qed.

Lemma onPointerUp_calls_stop_iff_playing_witness :
  invocations
    (Game.onPointerUp (fst (Game.startPlaying game0 (VStr "c") (VNum 1))) sprite_c1)
  = [(SendEventWith Stop, "c", 1)].
Proof.
  destruct (onPointerUp_calls_stop_iff_playing
              (fst (Game.startPlaying game0 (VStr "c") (VNum 1))) sprite_c1
              (SendEventWith Stop)) as (Hfire & _).
  - reflexivity.
  - assert (Hin : In (sprite_id sprite_c1)
                    (Game.playing (fst (Game.startPlaying game0 (VStr "c") (VNum 1))))).
    { vm_compute. left. reflexivity. }
    exact (Hfire Hin).
Defined.

(** X2. Membership after an update: after [startPlaying(k, o)] a key
    [(k', o')] is playing exactly when it was playing before or has the same
    identity as [(k, o)]; after [stopPlaying(k, o)] exactly when it was
    playing before and has another identity. *)
Theorem isPlaying_after_update (g : Game.t) (key octave key' octave' : JsValue) :
  Game.isPlaying (fst (Game.startPlaying g key octave)) key' octave'
  = Game.isPlaying g key' octave'
    || String.eqb (Game.keyId key' octave') (Game.keyId key octave)
  /\ Game.isPlaying (fst (Game.stopPlaying g key octave)) key' octave'
     = Game.isPlaying g key' octave'
       && negb (String.eqb (Game.keyId key' octave') (Game.keyId key octave)).
Proof.
  split; apply bool_eq_by_iff.
  - rewrite orb_true_iff, !isPlaying_true, String.eqb_eq. simpl.
    rewrite in_app_iff. simpl. intuition congruence.
  - rewrite andb_true_iff, negb_true_iff, !isPlaying_true, String.eqb_neq. simpl.
    apply filter_out_spec.
Qed.

(** X3. Stop undoes Play: [stopPlaying(k, o)] after [startPlaying(k, o)]
    leaves the playing set as one [stopPlaying(k, o)] alone would, which is
    the set as it was when the key was not in it; stopping twice is
    stopping once; and two stops can be swapped. *)
Theorem stop_undoes_start (g : Game.t) (key octave : JsValue) :
  let stop h := fst (Game.stopPlaying h key octave) in
  Game.playing (stop (fst (Game.startPlaying g key octave))) = Game.playing (stop g)
  /\ (~ In (Game.keyId key octave) (Game.playing g) ->
      stop (fst (Game.startPlaying g key octave)) = g)
  /\ stop (stop g) = stop g
  /\ (forall key' octave',
        fst (Game.stopPlaying (stop g) key' octave')
        = stop (fst (Game.stopPlaying g key' octave'))).
Proof.
  intros stop. unfold stop. simpl.
  assert (Hself : filter (fun k => negb (String.eqb k (Game.keyId key octave)))
                    (Game.playing g ++ [Game.keyId key octave])
                  = filter (fun k => negb (String.eqb k (Game.keyId key octave)))
                      (Game.playing g)).
  { rewrite filter_app. simpl. rewrite String.eqb_refl. simpl. apply app_nil_r. }
  split; [exact Hself|]. split; [|split].
  - intros Hidle. unfold Game.set_playing. simpl. rewrite Hself.
    rewrite filter_out_absent by exact Hidle. destruct g. reflexivity.
  - unfold Game.set_playing. simpl. f_equal.
    apply filter_out_absent. intros H. apply filter_out_spec in H.
    destruct H as [_ H]. apply H. reflexivity.
  - intros key' octave'. unfold Game.set_playing. simpl. f_equal.
    apply filter_out_swap.
Qed.

Lemma stop_undoes_start_witness :
  fst (Game.stopPlaying (fst (Game.startPlaying game0 (VStr "c") (VNum 1)))
         (VStr "c") (VNum 1))
  = game0.
Proof.
  destruct (stop_undoes_start game0 (VStr "c") (VNum 1)) as (_ & Hback & _).
  apply Hback. vm_compute. tauto.
Defined.

Lemma render_sprite_again (g g' : Game.t) (sprite : PianoSprite.t) :
  Game.playing g' = Game.playing g ->
  Game.render_sprite g' (Game.render_sprite g sprite) = Game.render_sprite g sprite.
Proof.
  intros Hp.
  assert (Hsame : forall key octave,
             Game.isPlaying g' key octave = Game.isPlaying g key octave).
  { intros key octave. unfold Game.isPlaying. rewrite Hp. reflexivity. }
  unfold Game.render_sprite.
  destruct (Game.isPlaying g (VStr (PianoSprite.key (PianoSprite.meta sprite)))
              (VNum (PianoSprite.octave (PianoSprite.meta sprite)))) eqn:E;
    simpl; rewrite Hsame, E; reflexivity.
Qed.

Lemma render_sprite_resting (g : Game.t) (v : Game.HTMLCanvasElement)
    (count position : nat) :
  Game.playing g = [] ->
  Game.render_sprite g (layoutKey v count position) = layoutKey v count position.
Proof.
  intros Hp.
  assert (Hidle : forall key octave, Game.isPlaying g key octave = false).
  { intros key octave. unfold Game.isPlaying. rewrite Hp. reflexivity. }
  unfold Game.render_sprite. rewrite Hidle.
  unfold layoutKey, PianoSprite.set_tint.
  cbn [PianoSprite.meta PianoSprite.key PianoSprite.tint PianoSprite.width
       PianoSprite.height PianoSprite.x PianoSprite.y PianoSprite.interactive
       PianoSprite.buttonMode].
  destruct (Game.isBlackKey (nth (position mod 12) Game.PIANO_KEYS ""));
    reflexivity.
Qed.

Lemma set_children_same (g : Game.t) :
  Game.set_children g (Game.children (Game.app g)) = g.
Proof. destruct g as [[v b s cs d] n p kp ks pl]. reflexivity. Qed.

(** X4. Rendering is idempotent and touches nothing but tints: a second
    render pass right after one changes nothing; the playing set, the
    pointer flag, the callbacks and the keys' pitch, octave and active
    colour are as before; and on a game whose sprites are the keys as drawn
    and where nothing is playing, a render pass changes nothing at all, the
    keys being created in their resting colours. *)
Theorem render_idempotent (g : Game.t) :
  Game.render (Game.render g) = Game.render g
  /\ Game.playing (Game.render g) = Game.playing g
  /\ Game.pointerDown (Game.render g) = Game.pointerDown g
  /\ Game._onKeyPlay (Game.render g) = Game._onKeyPlay g
  /\ Game._onKeyStop (Game.render g) = Game._onKeyStop g
  /\ map PianoSprite.meta (Game.children (Game.app (Game.render g)))
     = map PianoSprite.meta (Game.children (Game.app g))
  /\ (forall g0,
        Game.children (Game.app g0) = [] ->
        Game.children (Game.app g) = Game.children (Game.app (Game.createPianoKeys g0)) ->
        Game.playing g = [] ->
        Game.render g = g).
Proof.
  split; [|split; [|split; [|split; [|split; [|split]]]]].
  - unfold Game.render, Game.set_children, Game.set_app. simpl.
    do 2 f_equal. rewrite map_map. apply map_ext.
    intros sprite. apply render_sprite_again. reflexivity.
  - reflexivity.
  - reflexivity.
  - reflexivity.
  - reflexivity.
  - simpl. rewrite map_map. apply map_ext. intros sprite.
    unfold Game.render_sprite. destruct (Game.isPlaying g _ _); reflexivity.
  - intros g0 Hnil Hkeys Hidle. unfold Game.render.
    assert (Hmap : map (Game.render_sprite g) (Game.children (Game.app g))
                   = Game.children (Game.app g)).
    { rewrite Hkeys, (createPianoKeys_children g0 Hnil), map_map.
      apply map_ext. intros i. apply render_sprite_resting. exact Hidle. }
    rewrite Hmap. apply set_children_same.
Qed.

Lemma render_idempotent_witness : Game.render game0 = game0.
Proof.
  destruct (render_idempotent game0) as (_ & _ & _ & _ & _ & _ & Hfresh).
  apply (Hfresh (blank view0)); vm_compute; reflexivity.
Defined.

Lemma new_ids_NoDup (v : Game.HTMLCanvasElement) :
  NoDup (map sprite_id (Game.children (Game.app (Game.new v)))).
Proof.
  apply distinct_NoDup. vm_compute. reflexivity.
Qed.

(** X5. The keys of a new game have pairwise distinct identities: two
    sprites with the same identity are the same sprite, so marking one key
    as playing never lights another. *)
Theorem new_game_identities_distinct (v : Game.HTMLCanvasElement) :
  NoDup (map sprite_id (Game.children (Game.app (Game.new v))))
  /\ (forall i j si sj,
        nth_error (Game.children (Game.app (Game.new v))) i = Some si ->
        nth_error (Game.children (Game.app (Game.new v))) j = Some sj ->
        sprite_id si = sprite_id sj -> i = j).
Proof.
  pose proof (new_ids_NoDup v) as Hnd.
  split; [exact Hnd|].
  intros i j si sj Hi Hj Heq.
  apply (proj1 (NoDup_nth_error _) Hnd).
  - apply nth_error_Some. rewrite nth_error_map, Hi. discriminate.
  - rewrite !nth_error_map, Hi, Hj. simpl. rewrite Heq. reflexivity.
Qed.

Lemma new_game_identities_distinct_witness :
  NoDup (map sprite_id (Game.children (Game.app (Game.new view0)))).
Proof.
  apply (new_game_identities_distinct view0).
Defined.

(** * Further properties of the component *)

(** ** The wire format *)

Section Inbound.

Variable JSON_parse : string -> Result JsValue.

Lemma onmessage_dispatch (c : Canvas.t) (data : string)
    (type : GameEventType) (message : JsValue) :
  receives JSON_parse data type message ->
  Canvas.onmessage_try JSON_parse c data
  = match type with
    | Play =>
        let* key := getProp message "key" in
        let* octave := getProp message "octave" in
        Ok (Canvas.app_startPlaying c key octave)
    | Stop =>
        let* key := getProp message "key" in
        let* octave := getProp message "octave" in
        Ok (Canvas.app_stopPlaying c key octave)
    | Watchers => Ok (Canvas.setWatchers c message)
    end.
Proof.
  intros (parsed & Hp & Ht & Hm). unfold Canvas.onmessage_try.
  rewrite Hp. simpl. rewrite Ht. simpl. rewrite Hm. simpl.
  destruct type; reflexivity.
Qed.

End Inbound.

(** X8. A Watchers event whose message React can render (a number, a
    string, anything but an object), received by a component that is still
    in the tree, replaces the displayed count with the message, whatever
    the count was; it changes nothing else of the component and does
    nothing but log, and of two such events in a row the second one wins.
    A message that is not a valid child (an object) takes the component
    out of the tree: the cleanup runs, the game is destroyed and [close] is
    called on the held socket.  Once the component has left the tree a
    Watchers event changes nothing. *)
Theorem watchers_message_sets_count
    (JSON_parse : string -> Result JsValue) (c : Canvas.t)
    (data : string) (message : JsValue) :
  receives JSON_parse data Watchers message ->
  let c' := fst (Canvas.onmessage JSON_parse c data) in
  let out := snd (Canvas.onmessage JSON_parse c data) in
  (Canvas.isMounted c = true -> Canvas.validChild message = true ->
     c' = Canvas.storeWatchers c message
     /\ out = received data
     /\ Canvas.watchers c' = message
     /\ playing_of c' = playing_of c
     /\ (forall data0 message0,
           receives JSON_parse data0 Watchers message0 ->
           Canvas.validChild message0 = true ->
           Canvas.watchers
             (fst (Canvas.run JSON_parse c
                     [Canvas.WsMessage data0; Canvas.WsMessage data]))
           = message))
  /\ (Canvas.isMounted c = true -> Canvas.validChild message = false ->
      Canvas.isMounted c' = false
      /\ (forall g, Canvas.appRef c = Some g ->
            exists g', Canvas.appRef c' = Some g'
                       /\ Game.destroyed (Game.app g') = true
                       /\ In AppDestroy out)
      /\ (forall ws, Canvas.wsRef c = Some ws -> In (WsCloseCall ws) out))
  /\ (Canvas.isMounted c = false -> c' = c /\ out = received data).
Proof.
  intros H c' out.
  assert (K : forall c0, Canvas.onmessage JSON_parse c0 data
                         = (fst (Canvas.setWatchers c0 message),
                            (received data ++ snd (Canvas.setWatchers c0 message))%list)).
  { intros c0. unfold Canvas.onmessage.
    rewrite (onmessage_dispatch JSON_parse c0 data Watchers message H).
    destruct (Canvas.setWatchers c0 message). reflexivity. }
  assert (Kvalid : forall c0 m, Canvas.isMounted c0 = true ->
                     Canvas.validChild m = true ->
                     Canvas.setWatchers c0 m = (Canvas.storeWatchers c0 m, [])).
  { intros c0 m Hm Hv. unfold Canvas.setWatchers. rewrite Hm, Hv. reflexivity. }
  unfold c', out. rewrite K. cbn [fst snd]. split; [|split].
  - intros Hm Hv. rewrite (Kvalid c message Hm Hv). cbn [fst snd].
    split; [reflexivity|]. split; [reflexivity|]. split; [reflexivity|].
    split; [reflexivity|].
    intros data0 message0 (parsed0 & Hp0 & Ht0 & Hm0) Hv0.
    assert (E0 : Canvas.step JSON_parse c (Canvas.WsMessage data0)
                 = (Canvas.storeWatchers c message0, received data0)).
    { cbn [Canvas.step]. unfold Canvas.onmessage.
      rewrite (onmessage_dispatch JSON_parse c data0 Watchers message0)
        by (exists parsed0; repeat split; assumption).
      rewrite (Kvalid c message0 Hm Hv0). reflexivity. }
    rewrite (run_step JSON_parse c _ _ _ _ E0).
    cbn [fst Canvas.run Canvas.step]. rewrite K.
    rewrite (Kvalid (Canvas.storeWatchers c message0) message Hm Hv). reflexivity.
  - intros Hm Hv. unfold Canvas.setWatchers. rewrite Hm, Hv.
    destruct (unmount_frame (Canvas.storeWatchers c message))
      as (_ & _ & _ & _ & _ & _ & Hgone).
    split; [exact Hgone|]. split.
    + intros g Hg. unfold Canvas.unmount.
      change (Canvas.appRef (Canvas.storeWatchers c message)) with (Canvas.appRef c).
      rewrite Hg. simpl. eexists. split; [reflexivity|]. split; [reflexivity|].
      intuition.
    + intros ws Hw. unfold Canvas.unmount.
      change (Canvas.appRef (Canvas.storeWatchers c message)) with (Canvas.appRef c).
      destruct (Canvas.appRef c); simpl; rewrite Hw; simpl; intuition.
  - intros Hm. unfold Canvas.setWatchers. rewrite Hm. cbn [fst snd].
    split; reflexivity.
Qed.

Lemma watchers_message_sets_count_witness :
  Canvas.watchers (fst (Canvas.onmessage parse_known mounted (watchers_text 5)))
  = VNum 5.
Proof.
  destruct (watchers_message_sets_count parse_known mounted (watchers_text 5) (VNum 5))
    as (Hvalid & _).
  - exists (IGameEvent Watchers (VNum 5)). repeat split.
  - destruct Hvalid as (_ & _ & Hcount & _); [reflexivity | reflexivity |].
    exact Hcount.
Defined.



(** X10. What [onmessage] drops.  A payload that parses to [null], and a
    Play or Stop event whose message is [null] or missing, make the
    destructuring throw: the error is caught and logged as a parsing
    problem and the component is left as it was.  An event whose type is
    none of the three known ones is ignored without any error. *)
Theorem unusable_messages_dropped
    (JSON_parse : string -> Result JsValue) (c : Canvas.t)
    (data : string) (parsed : JsValue) :
  JSON_parse data = Ok parsed ->
  let dropped :=
    (c, (received data
         ++ [Log Error "problem parsing websocket message: %s" []])%list) in
  (parsed = VNull -> Canvas.onmessage JSON_parse c data = dropped)
  /\ (forall type message,
        getProp parsed "type" = Ok type ->
        getProp parsed "message" = Ok message ->
        Canvas.isCase type Play = true \/ Canvas.isCase type Stop = true ->
        message = VNull \/ message = VUndefined ->
        Canvas.onmessage JSON_parse c data = dropped)
  /\ (forall type,
        getProp parsed "type" = Ok type ->
        Canvas.isCase type Play = false ->
        Canvas.isCase type Stop = false ->
        Canvas.isCase type Watchers = false ->
        Canvas.onmessage JSON_parse c data = (c, received data)).
Proof.
  intros Hp dropped. unfold dropped, Canvas.onmessage, Canvas.onmessage_try.
  rewrite Hp. simpl. split; [|split].
  - intros ->. reflexivity.
  - intros type message Ht Hm Hcase Hnone. rewrite Ht. simpl. rewrite Hm. simpl.
    destruct (Canvas.isCase type Play) eqn:EP.
    + destruct Hnone as [-> | ->]; reflexivity.
    + destruct Hcase as [Hc|Hc]; [discriminate Hc|]. rewrite Hc.
      destruct Hnone as [-> | ->]; reflexivity.
  - intros type Ht HP HS HW. rewrite Ht. simpl.
    assert (Hm : exists message, getProp parsed "message" = Ok message).
    { destruct parsed; try discriminate Ht; simpl; try (eexists; reflexivity).
      destruct (lookup props "message"); eexists; reflexivity. }
    destruct Hm as (message & Hm). rewrite Hm. simpl. rewrite HP, HS, HW.
    reflexivity.
Qed.

Lemma unusable_messages_dropped_witness :
  Canvas.onmessage parse_more mounted "null"
  = (mounted, [Log Info "websocket message received" []; Log Debug "null" [];
               Log Error "problem parsing websocket message: %s" []])
  /\ Canvas.onmessage parse_more mounted (bare_event_text 0)
     = (mounted, [Log Info "websocket message received" [];
                  Log Debug (bare_event_text 0) [];
                  Log Error "problem parsing websocket message: %s" []])
  /\ Canvas.onmessage parse_more mounted (bare_event_text 7)
     = (mounted, [Log Info "websocket message received" [];
                  Log Debug (bare_event_text 7) []]).
Proof.
  split; [|split].
  - apply (unusable_messages_dropped parse_more mounted "null" VNull); reflexivity.
  - destruct (unusable_messages_dropped parse_more mounted (bare_event_text 0)
                (VObj [("type", VNum 0)])) as (_ & Hmissing & _); [reflexivity|].
    apply (Hmissing (VNum 0) VUndefined); try reflexivity; [left | right]; reflexivity.
  - destruct (unusable_messages_dropped parse_more mounted (bare_event_text 7)
                (VObj [("type", VNum 7)])) as (_ & _ & Hunknown); [reflexivity|].
    apply (Hunknown (VNum 7)); reflexivity.
Defined.

(** ** What each event may do *)

Lemma synthCalls_app (a b : list Effect) :
  synthCalls (a ++ b) = (synthCalls a ++ synthCalls b)%list.
Proof.
  induction a as [|e rest IH]; simpl; [reflexivity|].
  destruct e; simpl; rewrite IH; reflexivity.
Qed.

Lemma sends_app (a b : list Effect) : sends (a ++ b) = (sends a ++ sends b)%list.
Proof.
  induction a as [|e rest IH]; simpl; [reflexivity|].
  destruct e; simpl; rewrite IH; reflexivity.
Qed.

Lemma delays_app (a b : list Effect) : delays (a ++ b) = (delays a ++ delays b)%list.
Proof.
  induction a as [|e rest IH]; simpl; [reflexivity|].
  destruct e; simpl; rewrite IH; reflexivity.
Qed.

Lemma opened_app (a b : list Effect) : opened (a ++ b) = (opened a ++ opened b)%list.
Proof.
  induction a as [|e rest IH]; simpl; [reflexivity|].
  destruct e; simpl; rewrite IH; reflexivity.
Qed.

Lemma handlers_quiet (c : Canvas.t) (g : Game.t) (sprite : PianoSprite.t) :
  quiet (flat_map (Canvas.call c) (Game.onPointerDown g sprite))
  /\ quiet (flat_map (Canvas.call c) (Game.onPointerUp g sprite))
  /\ quiet (flat_map (Canvas.call c) (Game.onPointerOver g sprite)).
Proof.
  unfold quiet, Game.onPointerDown, Game.onPointerUp, Game.onPointerOver,
    Canvas.call, Canvas.sendEvent.
  destruct (Game.isPlaying g _ _); destruct (Game.pointerDown g);
    destruct (Game._onKeyPlay g) as [[tp]|]; destruct (Game._onKeyStop g) as [[ts]|];
    destruct (Canvas.wsRef c); simpl; repeat split.
Qed.

Lemma on_key_quiet (c : Canvas.t) (i : nat)
    (handler : Game.t -> PianoSprite.t -> list Effect) (bubble : Game.t -> Game.t) :
  (forall g sprite, quiet (flat_map (Canvas.call c) (handler g sprite))) ->
  quiet (snd (Canvas.on_key c i handler bubble)).
Proof.
  intros H. unfold Canvas.on_key.
  destruct (Canvas.appRef c) as [g|]; [|repeat split].
  destruct (Game.destroyed (Game.app g)); [repeat split|].
  destruct (nth_error (Game.children (Game.app g)) i); [apply H | repeat split].
Qed.

Lemma on_stage_silent (c : Canvas.t) (handler : Game.t -> Game.t) :
  snd (Canvas.on_stage c handler) = [].
Proof.
  unfold Canvas.on_stage. destruct (Canvas.appRef c) as [g|]; [|reflexivity].
  destruct (Game.destroyed (Game.app g)); reflexivity.
Qed.

Lemma onmessage_out (JSON_parse : string -> Result JsValue)
    (c : Canvas.t) (data : string) :
  sends (snd (Canvas.onmessage JSON_parse c data)) = []
  /\ delays (snd (Canvas.onmessage JSON_parse c data)) = []
  /\ opened (snd (Canvas.onmessage JSON_parse c data)) = [].
Proof.
  unfold Canvas.onmessage, Canvas.onmessage_try.
  destruct (JSON_parse data) as [parsed|e]; simpl; [|repeat split].
  destruct (getProp parsed "type") as [type|e]; simpl; [|repeat split].
  destruct (getProp parsed "message") as [message|e]; simpl; [|repeat split].
  destruct (Canvas.isCase type Play).
  { destruct (getProp message "key") as [key|e]; simpl; [|repeat split].
    destruct (getProp message "octave") as [octave|e]; simpl; [|repeat split].
    unfold Canvas.app_startPlaying.
    destruct (Canvas.appRef c); simpl; repeat split. }
  destruct (Canvas.isCase type Stop).
  { destruct (getProp message "key") as [key|e]; simpl; [|repeat split].
    destruct (getProp message "octave") as [octave|e]; simpl; [|repeat split].
    unfold Canvas.app_stopPlaying.
    destruct (Canvas.appRef c); simpl; repeat split. }
  destruct (Canvas.isCase type Watchers); [|simpl; repeat split].
  destruct (setWatchers_effects c message) as (_ & H2 & H3 & H4).
  destruct (Canvas.setWatchers c message) as [c1 out1]. simpl in *.
  repeat split; assumption.
Qed.

Lemma mount_out (c : Canvas.t) (boot : Canvas.Boot) :
  synthCalls (snd (Canvas.mount c boot)) = []
  /\ sends (snd (Canvas.mount c boot)) = []
  /\ delays (snd (Canvas.mount c boot)) = [].
Proof.
  unfold Canvas.mount, Canvas.initApp.
  destruct (Canvas.appRef c) eqn:E; [repeat split|].
  destruct boot; simpl; rewrite ?E; repeat split.
Qed.

Lemma unmount_out (c : Canvas.t) :
  synthCalls (snd (Canvas.unmount c)) = []
  /\ sends (snd (Canvas.unmount c)) = []
  /\ delays (snd (Canvas.unmount c)) = []
  /\ opened (snd (Canvas.unmount c)) = [].
Proof.
  unfold Canvas.unmount.
  destruct (Canvas.appRef c) eqn:E; simpl; rewrite ?E;
    destruct (Canvas.wsRef c); repeat split.
Qed.

(** X11. Who does what.  Only the key pointer events hand anything to the
    socket, only inbound messages reach the synth, only the close of a
    socket schedules a timer (one, with the current backoff delay), and
    only mounting and a firing reconnect timer open a socket: a local key
    press makes no sound by itself, and receiving a message never sends
    one. *)
Theorem effects_by_event
    (JSON_parse : string -> Result JsValue) (c : Canvas.t) (e : Canvas.Event) :
  let out := snd (Canvas.step JSON_parse c e) in
  (isMessage e = false -> synthCalls out = [])
  /\ (isKeyPointer e = false -> sends out = [])
  /\ delays out = match e with
                  | Canvas.WsClose => [Canvas.reconnectBackoff c]
                  | _ => []
                  end
  /\ (opened out <> [] ->
      (exists boot, e = Canvas.Mount boot) \/ (exists n, e = Canvas.TimerFired n)).
Proof.
  destruct e; simpl.
  - destruct (mount_out c boot) as (H1 & H2 & H3). repeat split; auto.
    intros _. left. exists boot. reflexivity.
  - destruct (unmount_out c) as (H1 & H2 & H3 & H4). repeat split; auto.
    intros H. contradiction.
  - repeat split; auto. intros H. contradiction.
  - repeat split; auto. intros H. contradiction.
  - destruct (onmessage_out JSON_parse c data) as (H1 & H2 & H3).
    repeat split; auto; try discriminate. intros H. contradiction.
  - destruct (nth_error (Canvas.timers c) n); simpl; repeat split; auto;
      intros _; right; exists n; reflexivity.
  - rewrite on_stage_silent. repeat split; auto. intros H. contradiction.
  - rewrite on_stage_silent. repeat split; auto. intros H. contradiction.
  - rewrite on_stage_silent. repeat split; auto. intros H. contradiction.
  - destruct (on_key_quiet c i Game.onPointerDown Game.stage_pointerdown)
      as (H1 & H2 & H3); [intros g s; apply (handlers_quiet c g s)|].
    repeat split; auto; try discriminate. intros H. contradiction.
  - destruct (on_key_quiet c i Game.onPointerUp Game.stage_pointerup)
      as (H1 & H2 & H3); [intros g s; apply (handlers_quiet c g s)|].
    repeat split; auto; try discriminate. intros H. contradiction.
  - destruct (on_key_quiet c i Game.onPointerUp (fun g => g))
      as (H1 & H2 & H3); [intros g s; apply (handlers_quiet c g s)|].
    repeat split; auto; try discriminate. intros H. contradiction.
  - destruct (on_key_quiet c i Game.onPointerUp (fun g => g))
      as (H1 & H2 & H3); [intros g s; apply (handlers_quiet c g s)|].
    repeat split; auto; try discriminate. intros H. contradiction.
  - destruct (on_key_quiet c i Game.onPointerOver (fun g => g))
      as (H1 & H2 & H3); [intros g s; apply (handlers_quiet c g s)|].
    repeat split; auto; try discriminate. intros H. contradiction.
Qed.

Lemma effects_by_event_witness :
  synthCalls (snd (Canvas.step parse_known mounted (Canvas.KeyPointerDown 0))) = []
  /\ sends (snd (Canvas.step parse_known mounted
                   (Canvas.WsMessage (key_event_text Play "c" 1)))) = [].
Proof.
  split.
  - apply (effects_by_event parse_known mounted (Canvas.KeyPointerDown 0)).
    reflexivity.
  - apply (effects_by_event parse_known mounted
             (Canvas.WsMessage (key_event_text Play "c" 1))).
    reflexivity.
Defined.

(** ** Mounting and the refs *)

Lemma new_view (v : Game.HTMLCanvasElement) : Game.view (Game.app (Game.new v)) = v.
Proof.
  unfold Game.new, Game.createPianoKeys.
  destruct (createPianoKeys_fold
              (seq 0 (Game.keyCount
                        (Game.mkGame (Game.mkApp v 0xffffff true [] false)
                                     52 false None None [])))
              (Game.mkGame (Game.mkApp v 0xffffff true [] false) 52 false None None []))
    as (_ & _ & Hv).
  exact Hv.
Qed.

Lemma new_keyCount (v : Game.HTMLCanvasElement) : Game.keyCount (Game.new v) = 52%nat.
Proof.
  unfold Game.new, Game.createPianoKeys.
  destruct (createPianoKeys_fold
              (seq 0 (Game.keyCount
                        (Game.mkGame (Game.mkApp v 0xffffff true [] false)
                                     52 false None None [])))
              (Game.mkGame (Game.mkApp v 0xffffff true [] false) 52 false None None []))
    as (_ & Hk & _).
  exact Hk.
Qed.

Lemma wire_frame (g : Game.t) (play stop : KeyPlayEvent) :
  Game._onKeyPlay (Game.onKeyStop (Game.onKeyPlay g play) stop) = Some play
  /\ Game._onKeyStop (Game.onKeyStop (Game.onKeyPlay g play) stop) = Some stop
  /\ Game.keyCount (Game.onKeyStop (Game.onKeyPlay g play) stop) = Game.keyCount g
  /\ Game.app (Game.onKeyStop (Game.onKeyPlay g play) stop) = Game.app g
  /\ Game.playing (Game.onKeyStop (Game.onKeyPlay g play) stop) = Game.playing g
  /\ Game.pointerDown (Game.onKeyStop (Game.onKeyPlay g play) stop)
     = Game.pointerDown g.
Proof. repeat split. Qed.

Lemma wired_wiredGame (v : Game.HTMLCanvasElement) : wiredGame (wired v).
Proof.
  unfold wiredGame, wired.
  destruct (wire_frame (Game.new v) (SendEventWith Play) (SendEventWith Stop))
    as (H1 & H2 & H3 & H4 & _).
  rewrite H1, H2, H3, H4, (new_keyCount v), (new_view v).
  repeat split.
Qed.

Lemma wiredGame_same_frame (g h : Game.t) :
  wiredGame g ->
  Game._onKeyPlay h = Game._onKeyPlay g ->
  Game._onKeyStop h = Game._onKeyStop g ->
  Game.keyCount h = Game.keyCount g ->
  Game.view (Game.app h) = Game.view (Game.app g) ->
  map PianoSprite.meta (Game.children (Game.app h))
  = map PianoSprite.meta (Game.children (Game.app g)) ->
  wiredGame h.
Proof.
  intros (H1 & H2 & H3 & H4) E1 E2 E3 E4 E5. unfold wiredGame.
  rewrite E1, E2, E3, E4, E5. repeat split; assumption.
Qed.

Lemma render_meta (g : Game.t) :
  map PianoSprite.meta (Game.children (Game.app (Game.render g)))
  = map PianoSprite.meta (Game.children (Game.app g)).
Proof.
  simpl. rewrite map_map. apply map_ext. intros sprite.
  unfold Game.render_sprite. destruct (Game.isPlaying g _ _); reflexivity.
Qed.

Lemma refsAgree_set_game (c : Canvas.t) (g h : Game.t) :
  refsAgree c -> Canvas.appRef c = Some g ->
  (wiredGame g -> wiredGame h) ->
  refsAgree (Canvas.set_appRef c (Some h)).
Proof.
  intros (Hg & Hs) E Hw. split; [|exact Hs].
  intros h0 Hh. simpl in Hh. injection Hh as <-.
  destruct (Hg g E) as (Hwg & Hws). split; [apply Hw; exact Hwg | exact Hws].
Qed.

Lemma refsAgree_same_refs (c c' : Canvas.t) :
  Canvas.appRef c' = Canvas.appRef c ->
  Canvas.wsRef c' = Canvas.wsRef c ->
  Canvas.sockets c' = Canvas.sockets c ->
  refsAgree c -> refsAgree c'.
Proof.
  intros Ha Hw Hs H. unfold refsAgree. rewrite Ha, Hw, Hs. exact H.
Qed.

Lemma refsAgree_unmount (c : Canvas.t) :
  refsAgree c -> refsAgree (fst (Canvas.unmount c)).
Proof.
  intros H. unfold Canvas.unmount.
  destruct (Canvas.appRef c) as [g|] eqn:E; simpl.
  - apply (refsAgree_same_refs
             (Canvas.set_appRef c (Some (fst (Game.destroy g))))); try reflexivity.
    apply (refsAgree_set_game c g); [exact H | exact E|].
    intros Hw. apply (wiredGame_same_frame g); try reflexivity. exact Hw.
  - apply (refsAgree_same_refs c); try reflexivity. exact H.
Qed.

Lemma refsAgree_setWatchers (c : Canvas.t) (w : JsValue) :
  refsAgree c -> refsAgree (fst (Canvas.setWatchers c w)).
Proof.
  intros H. unfold Canvas.setWatchers.
  destruct (Canvas.isMounted c); [|exact H].
  destruct (Canvas.validChild w).
  - apply (refsAgree_same_refs c); try reflexivity. exact H.
  - apply refsAgree_unmount.
    apply (refsAgree_same_refs c); try reflexivity. exact H.
Qed.

Lemma refsAgree_initWs (c : Canvas.t) (a : option Game.t) :
  refsAgree c ->
  (forall g, a = Some g -> wiredGame g) ->
  refsAgree (Canvas.mkCanvas a (Some (Canvas.sockets c)) (S (Canvas.sockets c))
               (Canvas.watchers c) (Canvas.reconnectBackoff c) (Canvas.timers c)
               (Canvas.isMounted c)).
Proof.
  intros _ Ha. split.
  - intros g Hg. simpl in Hg. split; [apply Ha; exact Hg | discriminate].
  - right. exists (Canvas.sockets c). split; reflexivity.
Qed.

Lemma refsAgree_on_key (c : Canvas.t) (i : nat)
    (handler : Game.t -> PianoSprite.t -> list Effect) (bubble : Game.t -> Game.t) :
  (forall g, wiredGame g -> wiredGame (bubble g)) ->
  refsAgree c -> refsAgree (fst (Canvas.on_key c i handler bubble)).
Proof.
  intros Hb H. unfold Canvas.on_key.
  destruct (Canvas.appRef c) as [g|] eqn:E; [|exact H].
  destruct (Game.destroyed (Game.app g)); [exact H|].
  destruct (nth_error (Game.children (Game.app g)) i); [|exact H].
  simpl. apply (refsAgree_set_game c g); [exact H | exact E | apply Hb].
Qed.

Lemma refsAgree_on_stage (c : Canvas.t) (handler : Game.t -> Game.t) :
  (forall g, wiredGame g -> wiredGame (handler g)) ->
  refsAgree c -> refsAgree (fst (Canvas.on_stage c handler)).
Proof.
  intros Hb H. unfold Canvas.on_stage.
  destruct (Canvas.appRef c) as [g|] eqn:E; [|exact H].
  destruct (Game.destroyed (Game.app g)); [exact H|].
  simpl. apply (refsAgree_set_game c g); [exact H | exact E | apply Hb].
Qed.

Lemma refsAgree_onmessage (JSON_parse : string -> Result JsValue)
    (c : Canvas.t) (data : string) :
  refsAgree c -> refsAgree (fst (Canvas.onmessage JSON_parse c data)).
Proof.
  intros H. unfold Canvas.onmessage, Canvas.onmessage_try.
  destruct (JSON_parse data) as [parsed|e]; simpl; [|exact H].
  destruct (getProp parsed "type") as [type|e]; simpl; [|exact H].
  destruct (getProp parsed "message") as [message|e]; simpl; [|exact H].
  destruct (Canvas.isCase type Play).
  { destruct (getProp message "key") as [key|e]; simpl; [|exact H].
    destruct (getProp message "octave") as [octave|e]; simpl; [|exact H].
    unfold Canvas.app_startPlaying.
    destruct (Canvas.appRef c) as [g|] eqn:E; simpl; [|exact H].
    apply (refsAgree_set_game c g); [exact H | exact E|].
    intros Hw. apply (wiredGame_same_frame g); try reflexivity. exact Hw. }
  destruct (Canvas.isCase type Stop).
  { destruct (getProp message "key") as [key|e]; simpl; [|exact H].
    destruct (getProp message "octave") as [octave|e]; simpl; [|exact H].
    unfold Canvas.app_stopPlaying.
    destruct (Canvas.appRef c) as [g|] eqn:E; simpl; [|exact H].
    apply (refsAgree_set_game c g); [exact H | exact E|].
    intros Hw. apply (wiredGame_same_frame g); try reflexivity. exact Hw. }
  destruct (Canvas.isCase type Watchers); [|simpl; exact H].
  pose proof (refsAgree_setWatchers c message H) as Hw.
  destruct (Canvas.setWatchers c message). exact Hw.
Qed.

Lemma refsAgree_step (JSON_parse : string -> Result JsValue)
    (c : Canvas.t) (e : Canvas.Event) :
  refsAgree c -> refsAgree (fst (Canvas.step JSON_parse c e)).
Proof.
  intros H. destruct e; simpl.
  - unfold Canvas.mount, Canvas.initApp.
    destruct (Canvas.appRef c) as [g|] eqn:E; [exact H|].
    destruct boot as [| | |v];
      try (simpl; rewrite ?E; simpl;
           apply (refsAgree_initWs c None); [exact H | intros g Hg; discriminate Hg]).
    pose proof (wired_wiredGame v) as Hw. unfold wired in Hw. revert Hw.
    generalize (Game.new v). intros g0 Hw. simpl.
    apply (refsAgree_initWs c
             (Some (Game.onKeyStop (Game.onKeyPlay g0 (SendEventWith Play))
                                   (SendEventWith Stop)))); [exact H|].
    intros g Hg. injection Hg as <-. exact Hw.
  - apply refsAgree_unmount. exact H.
  - exact H.
  - exact H.
  - apply refsAgree_onmessage. exact H.
  - destruct (nth_error (Canvas.timers c) n); [|exact H]. simpl.
    destruct H as (Hg & Hs). split.
    + intros g Hgame. simpl in Hgame. destruct (Hg g Hgame) as (Hw & _).
      split; [exact Hw | discriminate].
    + right. exists (Canvas.sockets c). split; reflexivity.
  - apply refsAgree_on_stage; [|exact H]. intros g Hw.
    apply (wiredGame_same_frame g); try reflexivity; [exact Hw | apply render_meta].
  - apply refsAgree_on_stage; [|exact H]. intros g Hw.
    apply (wiredGame_same_frame g); try reflexivity. exact Hw.
  - apply refsAgree_on_stage; [|exact H]. intros g Hw.
    apply (wiredGame_same_frame g); try reflexivity. exact Hw.
  - apply refsAgree_on_key; [|exact H]. intros g Hw.
    apply (wiredGame_same_frame g); try reflexivity. exact Hw.
  - apply refsAgree_on_key; [|exact H]. intros g Hw.
    apply (wiredGame_same_frame g); try reflexivity. exact Hw.
  - apply refsAgree_on_key; [|exact H]. intros g Hw. exact Hw.
  - apply refsAgree_on_key; [|exact H]. intros g Hw. exact Hw.
  - apply refsAgree_on_key; [|exact H]. intros g Hw. exact Hw.
Qed.

Lemma run_invariant (JSON_parse : string -> Result JsValue) (P : Canvas.t -> Prop) :
  (forall c e, P c -> P (fst (Canvas.step JSON_parse c e))) ->
  forall es c, P c -> P (fst (Canvas.run JSON_parse c es)).
Proof.
  intros Hstep es. induction es as [|e rest IH]; intros c Hc; [exact Hc|].
  rewrite run_cons. apply IH. apply Hstep. exact Hc.
Qed.

Lemma new_children_length (v : Game.HTMLCanvasElement) :
  List.length (Game.children (Game.app (Game.new v))) = 52%nat.
Proof.
  unfold Game.new.
  rewrite (createPianoKeys_children
             (Game.mkGame (Game.mkApp v 0xffffff true [] false) 52 false None None [])
             eq_refl).
  rewrite length_map, length_seq. reflexivity.
Qed.

(** X12. Mounting always connects.  Whatever becomes of the game (the
    import fails, there is no canvas, the constructor throws, or the game
    is built), mounting a fresh component opens socket number 0 and holds
    it, with the backoff at 100 ms, no timer pending and 1 watcher shown;
    the game is held, drawn and with both callbacks registered, exactly
    when it could be built.  Mounting a component that already holds a
    game only logs a warning: no second game, no second socket. *)
Theorem mount_always_connects
    (JSON_parse : string -> Result JsValue) (boot : Canvas.Boot) :
  let c := fst (Canvas.step JSON_parse Canvas.initial (Canvas.Mount boot)) in
  let out := snd (Canvas.step JSON_parse Canvas.initial (Canvas.Mount boot)) in
  Canvas.wsRef c = Some 0%nat
  /\ opened out = [0%nat]
  /\ Canvas.reconnectBackoff c = 100
  /\ Canvas.timers c = []
  /\ Canvas.watchers c = VNum 1
  /\ Canvas.appRef c = match boot with
                       | Canvas.Ready v => Some (wired v)
                       | _ => None
                       end
  /\ (forall c0 g,
        Canvas.appRef c0 = Some g ->
        Canvas.step JSON_parse c0 (Canvas.Mount boot)
        = (c0, [Log Info "mounting canvas" [];
                Log Warn "canvas already initialized" []])).
Proof.
  intros c out. unfold c, out.
  split; [destruct boot; reflexivity|].
  split; [destruct boot; reflexivity|].
  split; [destruct boot; reflexivity|].
  split; [destruct boot; reflexivity|].
  split; [destruct boot; reflexivity|].
  split.
  - destruct boot; reflexivity.
  - intros c0 g Hg. simpl. unfold Canvas.mount, Canvas.initApp. rewrite Hg.
    reflexivity.
Qed.

(** X13. The refs of the component always agree.  After any run of events
    from the fresh component: if a game is held, a socket is held too (so
    the callbacks never find the socket ref empty), the game has both
    callbacks of the component registered and its 52 keys, with the pitch,
    octave and active colour they were drawn with; and the socket held is
    always the one opened last. *)
Theorem refs_always_agree
    (JSON_parse : string -> Result JsValue) (es : list Canvas.Event) :
  let c := fst (Canvas.run JSON_parse Canvas.initial es) in
  refsAgree c
  /\ (forall g, Canvas.appRef c = Some g ->
        Canvas.wsRef c <> None
        /\ Game._onKeyPlay g = Some (SendEventWith Play)
        /\ Game._onKeyStop g = Some (SendEventWith Stop)
        /\ List.length (Game.children (Game.app g)) = 52%nat).
Proof.
  intros c.
  assert (H : refsAgree c).
  { unfold c. apply run_invariant.
    - intros c0 e. apply refsAgree_step.
    - split; [intros g Hg; discriminate Hg|]. left. split; reflexivity. }
  split; [exact H|].
  intros g Hg. destruct H as (Hgame & _).
  destruct (Hgame g Hg) as ((Hp & Hs & _ & Hm) & Hws).
  repeat split; try assumption.
  rewrite <- (length_map PianoSprite.meta), Hm, length_map.
  apply new_children_length.
Qed.

(** ** The backoff *)

Lemma remove_nth_Forall (P : Z -> Prop) (n : nat) (l : list Z) :
  Forall P l -> Forall P (Canvas.remove_nth n l).
Proof.
  revert n. induction l as [|a rest IH]; intros n H; [destruct n; exact H|].
  inversion H as [|a' rest' Ha Hrest]; subst.
  destruct n as [|n]; simpl; [exact Hrest|].
  constructor; [exact Ha | apply IH; exact Hrest].
Qed.

Lemma isBackoffDelay_double (d : Z) : isBackoffDelay d -> isBackoffDelay (d * 2).
Proof.
  intros (k & ->). exists (S k).
  rewrite Nat2Z.inj_succ, Z.pow_succ_r by lia. lia.
Qed.

Lemma isBackoffDelay_floor (d : Z) : isBackoffDelay d -> 100 <= d.
Proof.
  intros (k & ->). assert (0 < 2 ^ Z.of_nat k) by (apply Z.pow_pos_nonneg; lia). lia.
Qed.

Lemma step_backoff (JSON_parse : string -> Result JsValue)
    (c : Canvas.t) (e : Canvas.Event) :
  isBackoffDelay (Canvas.reconnectBackoff c) ->
  Forall isBackoffDelay (Canvas.timers c) ->
  isBackoffDelay (Canvas.reconnectBackoff (fst (Canvas.step JSON_parse c e)))
  /\ Forall isBackoffDelay (Canvas.timers (fst (Canvas.step JSON_parse c e))).
Proof.
  intros Hb Ht. destruct e; simpl.
  - unfold Canvas.mount, Canvas.initApp.
    destruct (Canvas.appRef c) eqn:E; [split; assumption|].
    destruct boot; simpl; rewrite ?E; simpl; split; assumption.
  - unfold Canvas.unmount. destruct (Canvas.appRef c); simpl; split; assumption.
  - split; [exists 0%nat; reflexivity | exact Ht].
  - split; [exact Hb|]. apply Forall_app. split; [exact Ht|].
    constructor; [exact Hb | constructor].
  - unfold Canvas.onmessage, Canvas.onmessage_try.
    destruct (JSON_parse data) as [parsed|x]; simpl; [|split; assumption].
    destruct (getProp parsed "type") as [type|x]; simpl; [|split; assumption].
    destruct (getProp parsed "message") as [message|x]; simpl; [|split; assumption].
    destruct (Canvas.isCase type Play).
    { destruct (getProp message "key") as [key|x]; simpl; [|split; assumption].
      destruct (getProp message "octave") as [octave|x]; simpl; [|split; assumption].
      unfold Canvas.app_startPlaying. destruct (Canvas.appRef c); split; assumption. }
    destruct (Canvas.isCase type Stop).
    { destruct (getProp message "key") as [key|x]; simpl; [|split; assumption].
      destruct (getProp message "octave") as [octave|x]; simpl; [|split; assumption].
      unfold Canvas.app_stopPlaying. destruct (Canvas.appRef c); split; assumption. }
    destruct (Canvas.isCase type Watchers); [|split; assumption].
    destruct (setWatchers_frame c message) as (_ & _ & _ & H4 & H5).
    destruct (Canvas.setWatchers c message) as [c1 out1]. simpl in *.
    rewrite H4, H5. split; assumption.
  - destruct (nth_error (Canvas.timers c) n); simpl; [|split; assumption].
    split; [apply isBackoffDelay_double; exact Hb | apply remove_nth_Forall; exact Ht].
  - unfold Canvas.on_stage. destruct (Canvas.appRef c) as [g|]; [|split; assumption].
    destruct (Game.destroyed (Game.app g)); split; assumption.
  - unfold Canvas.on_stage. destruct (Canvas.appRef c) as [g|]; [|split; assumption].
    destruct (Game.destroyed (Game.app g)); split; assumption.
  - unfold Canvas.on_stage. destruct (Canvas.appRef c) as [g|]; [|split; assumption].
    destruct (Game.destroyed (Game.app g)); split; assumption.
  - unfold Canvas.on_key. destruct (Canvas.appRef c) as [g|]; [|split; assumption].
    destruct (Game.destroyed (Game.app g)); [split; assumption|].
    destruct (nth_error (Game.children (Game.app g)) i); split; assumption.
  - unfold Canvas.on_key. destruct (Canvas.appRef c) as [g|]; [|split; assumption].
    destruct (Game.destroyed (Game.app g)); [split; assumption|].
    destruct (nth_error (Game.children (Game.app g)) i); split; assumption.
  - unfold Canvas.on_key. destruct (Canvas.appRef c) as [g|]; [|split; assumption].
    destruct (Game.destroyed (Game.app g)); [split; assumption|].
    destruct (nth_error (Game.children (Game.app g)) i); split; assumption.
  - unfold Canvas.on_key. destruct (Canvas.appRef c) as [g|]; [|split; assumption].
    destruct (Game.destroyed (Game.app g)); [split; assumption|].
    destruct (nth_error (Game.children (Game.app g)) i); split; assumption.
  - unfold Canvas.on_key. destruct (Canvas.appRef c) as [g|]; [|split; assumption].
    destruct (Game.destroyed (Game.app g)); [split; assumption|].
    destruct (nth_error (Game.children (Game.app g)) i); split; assumption.
Qed.

Lemma step_delays (JSON_parse : string -> Result JsValue)
    (c : Canvas.t) (e : Canvas.Event) :
  isBackoffDelay (Canvas.reconnectBackoff c) ->
  Forall isBackoffDelay (delays (snd (Canvas.step JSON_parse c e))).
Proof.
  intros Hb.
  assert (H : delays (snd (Canvas.step JSON_parse c e)) = []
              \/ delays (snd (Canvas.step JSON_parse c e)) = [Canvas.reconnectBackoff c]).
  { destruct e; simpl; auto.
    - left. apply mount_out.
    - left. apply unmount_out.
    - left. apply onmessage_out.
    - left. destruct (nth_error (Canvas.timers c) n); reflexivity.
    - left. rewrite on_stage_silent. reflexivity.
    - left. rewrite on_stage_silent. reflexivity.
    - left. rewrite on_stage_silent. reflexivity.
    - left. apply on_key_quiet. intros g s. apply (handlers_quiet c g s).
    - left. apply on_key_quiet. intros g s. apply (handlers_quiet c g s).
    - left. apply on_key_quiet. intros g s. apply (handlers_quiet c g s).
    - left. apply on_key_quiet. intros g s. apply (handlers_quiet c g s).
    - left. apply on_key_quiet. intros g s. apply (handlers_quiet c g s). }
  destruct H as [-> | ->]; [constructor | constructor; [exact Hb | constructor]].
Qed.

Lemma run_backoff (JSON_parse : string -> Result JsValue)
    (es : list Canvas.Event) (c : Canvas.t) :
  isBackoffDelay (Canvas.reconnectBackoff c) ->
  Forall isBackoffDelay (Canvas.timers c) ->
  isBackoffDelay (Canvas.reconnectBackoff (fst (Canvas.run JSON_parse c es)))
  /\ Forall isBackoffDelay (Canvas.timers (fst (Canvas.run JSON_parse c es)))
  /\ Forall isBackoffDelay (delays (snd (Canvas.run JSON_parse c es))).
Proof.
  revert c. induction es as [|e rest IH]; intros c Hb Ht.
  - simpl. repeat split; [exact Hb | exact Ht | constructor].
  - destruct (step_backoff JSON_parse c e Hb Ht) as (Hb1 & Ht1).
    pose proof (step_delays JSON_parse c e Hb) as Hd1.
    simpl. destruct (Canvas.step JSON_parse c e) as [c1 out1]. simpl in *.
    destruct (IH c1 Hb1 Ht1) as (Hb2 & Ht2 & Hd2).
    destruct (Canvas.run JSON_parse c1 rest) as [c2 out2]. simpl in *.
    repeat split; [exact Hb2 | exact Ht2|].
    rewrite delays_app. apply Forall_app. split; assumption.
Qed.

(** X14. Every reconnect delay is of the sequence.  After any run of events
    from the fresh component, whatever the order of opens, closes, timers
    and messages, the current backoff, the delay of every pending timer and
    every delay that was handed to [setTimeout] is 100 ms doubled some
    number of times; none is ever below 100 ms. *)
Theorem reconnect_delays_in_sequence
    (JSON_parse : string -> Result JsValue) (es : list Canvas.Event) :
  let c := fst (Canvas.run JSON_parse Canvas.initial es) in
  let out := snd (Canvas.run JSON_parse Canvas.initial es) in
  isBackoffDelay (Canvas.reconnectBackoff c)
  /\ Forall isBackoffDelay (Canvas.timers c)
  /\ Forall isBackoffDelay (delays out)
  /\ 100 <= Canvas.reconnectBackoff c
  /\ Forall (fun d => 100 <= d) (delays out).
Proof.
  intros c out.
  destruct (run_backoff JSON_parse es Canvas.initial) as (Hb & Ht & Hd).
  - exists 0%nat. reflexivity.
  - constructor.
  - fold c in Hb, Ht. fold out in Hd. repeat split; try assumption.
    + apply isBackoffDelay_floor. exact Hb.
    + apply (Forall_impl _ isBackoffDelay_floor). exact Hd.
Qed.

(** ** From pointer input to the wire and back *)

Section Relay.

Variable JSON_parse : string -> Result JsValue.

Variables (c : Canvas.t) (g : Game.t) (ws i : nat) (sprite : PianoSprite.t).

Hypothesis Hgame : Canvas.appRef c = Some g.
Hypothesis Halive : Game.destroyed (Game.app g) = false.
Hypothesis Hsprite : nth_error (Game.children (Game.app g)) i = Some sprite.
Hypothesis Hsocket : Canvas.wsRef c = Some ws.

Lemma key_down_idle :
  Game._onKeyPlay g = Some (SendEventWith Play) ->
  ~ In (sprite_id sprite) (Game.playing g) ->
  Canvas.step JSON_parse c (Canvas.KeyPointerDown i)
  = (Canvas.set_appRef c (Some (Game.stage_pointerdown g)),
     [Log Info "key down %s%d"
        [VStr (PianoSprite.key (PianoSprite.meta sprite));
         VNum (PianoSprite.octave (PianoSprite.meta sprite))];
      Invoke (SendEventWith Play) (PianoSprite.key (PianoSprite.meta sprite))
             (PianoSprite.octave (PianoSprite.meta sprite));
      WsSend ws (IGameEvent Play
                   (keyMessage (PianoSprite.key (PianoSprite.meta sprite))
                               (PianoSprite.octave (PianoSprite.meta sprite))))]).
Proof.
  intros Hcb Hidle. apply isPlaying_false in Hidle. unfold sprite_id in Hidle.
  cbn [Canvas.step]. unfold Canvas.on_key. rewrite Hgame, Halive, Hsprite.
  unfold Game.onPointerDown. rewrite Hidle, Hcb.
  cbn [negb flat_map Canvas.call app]. unfold Canvas.sendEvent. rewrite Hsocket.
  reflexivity.
Qed.

Lemma key_over_idle :
  Game._onKeyPlay g = Some (SendEventWith Play) ->
  Game.pointerDown g = true ->
  ~ In (sprite_id sprite) (Game.playing g) ->
  Canvas.step JSON_parse c (Canvas.KeyPointerOver i)
  = (Canvas.set_appRef c (Some g),
     [Log Info "key over %s%d"
        [VStr (PianoSprite.key (PianoSprite.meta sprite));
         VNum (PianoSprite.octave (PianoSprite.meta sprite))];
      Invoke (SendEventWith Play) (PianoSprite.key (PianoSprite.meta sprite))
             (PianoSprite.octave (PianoSprite.meta sprite));
      WsSend ws (IGameEvent Play
                   (keyMessage (PianoSprite.key (PianoSprite.meta sprite))
                               (PianoSprite.octave (PianoSprite.meta sprite))))]).
Proof.
  intros Hcb Hdown Hidle. apply isPlaying_false in Hidle. unfold sprite_id in Hidle.
  cbn [Canvas.step]. unfold Canvas.on_key. rewrite Hgame, Halive, Hsprite.
  unfold Game.onPointerOver. rewrite Hidle, Hdown, Hcb.
  cbn [negb andb flat_map Canvas.call app]. unfold Canvas.sendEvent. rewrite Hsocket.
  reflexivity.
Qed.

Lemma key_release_playing (bubble : Game.t -> Game.t) :
  Game._onKeyStop g = Some (SendEventWith Stop) ->
  In (sprite_id sprite) (Game.playing g) ->
  Canvas.on_key c i Game.onPointerUp bubble
  = (Canvas.set_appRef c (Some (bubble g)),
     [Log Info "key up %s%d"
        [VStr (PianoSprite.key (PianoSprite.meta sprite));
         VNum (PianoSprite.octave (PianoSprite.meta sprite))];
      Invoke (SendEventWith Stop) (PianoSprite.key (PianoSprite.meta sprite))
             (PianoSprite.octave (PianoSprite.meta sprite));
      WsSend ws (IGameEvent Stop
                   (keyMessage (PianoSprite.key (PianoSprite.meta sprite))
                               (PianoSprite.octave (PianoSprite.meta sprite))))]).
Proof.
  intros Hcb Hplaying. apply isPlaying_true in Hplaying. unfold sprite_id in Hplaying.
  unfold Canvas.on_key. rewrite Hgame, Halive, Hsprite.
  unfold Game.onPointerUp. rewrite Hplaying, Hcb.
  cbn [flat_map Canvas.call app]. unfold Canvas.sendEvent. rewrite Hsocket.
  reflexivity.
Qed.

Lemma key_down_playing :
  In (sprite_id sprite) (Game.playing g) ->
  Canvas.step JSON_parse c (Canvas.KeyPointerDown i)
  = (Canvas.set_appRef c (Some (Game.stage_pointerdown g)), []).
Proof.
  intros Hplaying. cbn [Canvas.step]. unfold Canvas.on_key.
  rewrite Hgame, Halive, Hsprite, (onPointerDown_playing g sprite Hplaying).
  reflexivity.
Qed.

Lemma key_release_idle (bubble : Game.t -> Game.t) :
  ~ In (sprite_id sprite) (Game.playing g) ->
  Canvas.on_key c i Game.onPointerUp bubble
  = (Canvas.set_appRef c (Some (bubble g)), []).
Proof.
  intros Hidle. unfold Canvas.on_key.
  rewrite Hgame, Halive, Hsprite, (onPointerUp_idle g sprite Hidle).
  reflexivity.
Qed.

End Relay.

Lemma key_message_step (JSON_parse : string -> Result JsValue)
    (c : Canvas.t) (g : Game.t) (data : string) (key : string) (octave : Z) :
  Canvas.appRef c = Some g ->
  (JSON_parse data = Ok (IGameEvent Play (keyMessage key octave)) ->
   Canvas.step JSON_parse c (Canvas.WsMessage data)
   = (Canvas.set_appRef c
        (Some (fst (Game.startPlaying g (VStr key) (VNum octave)))),
      (received data ++ [TriggerAttack (Game.keyId (VStr key) (VNum octave))])%list))
  /\ (JSON_parse data = Ok (IGameEvent Stop (keyMessage key octave)) ->
      Canvas.step JSON_parse c (Canvas.WsMessage data)
      = (Canvas.set_appRef c
           (Some (fst (Game.stopPlaying g (VStr key) (VNum octave)))),
         (received data ++ [TriggerRelease])%list)).
Proof.
  intros Hg. split; intros Hp; cbn [Canvas.step];
    unfold Canvas.onmessage, Canvas.onmessage_try; rewrite Hp; simpl;
    [unfold Canvas.app_startPlaying | unfold Canvas.app_stopPlaying];
    rewrite Hg; reflexivity.
Qed.

(** X15. Local input on the wire.  On a mounted component (game alive,
    socket held, callbacks registered): pressing a key that is not playing
    sends exactly one Play event [{ type: 0, message: { key, octave } }] for
    that key on the held socket, and so does hovering it while the pointer
    is down, also right after a press on any key (the slide); releasing or
    leaving a playing key sends exactly one Stop event; pressing or hovering
    a playing key, hovering with the pointer up, and releasing a key that is
    not playing send nothing. *)
Theorem pointer_input_on_the_wire
    (JSON_parse : string -> Result JsValue)
    (c : Canvas.t) (g : Game.t) (ws i : nat) (sprite : PianoSprite.t) :
  Canvas.appRef c = Some g ->
  Game.destroyed (Game.app g) = false ->
  nth_error (Game.children (Game.app g)) i = Some sprite ->
  Canvas.wsRef c = Some ws ->
  Game._onKeyPlay g = Some (SendEventWith Play) ->
  Game._onKeyStop g = Some (SendEventWith Stop) ->
  let sent e := sends (snd (Canvas.step JSON_parse c e)) in
  let event type :=
    (ws, IGameEvent type (keyMessage (PianoSprite.key (PianoSprite.meta sprite))
                                     (PianoSprite.octave (PianoSprite.meta sprite)))) in
  (~ In (sprite_id sprite) (Game.playing g) ->
     sent (Canvas.KeyPointerDown i) = [event Play]
     /\ (Game.pointerDown g = true -> sent (Canvas.KeyPointerOver i) = [event Play])
     /\ (forall j sj, nth_error (Game.children (Game.app g)) j = Some sj ->
           sends (snd (Canvas.step JSON_parse
                         (fst (Canvas.step JSON_parse c (Canvas.KeyPointerDown j)))
                         (Canvas.KeyPointerOver i)))
           = [event Play])
     /\ sent (Canvas.KeyPointerUp i) = []
     /\ sent (Canvas.KeyPointerOut i) = []
     /\ sent (Canvas.KeyPointerUpOutside i) = [])
  /\ (In (sprite_id sprite) (Game.playing g) ->
      sent (Canvas.KeyPointerUp i) = [event Stop]
      /\ sent (Canvas.KeyPointerOut i) = [event Stop]
      /\ sent (Canvas.KeyPointerUpOutside i) = [event Stop]
      /\ sent (Canvas.KeyPointerDown i) = []
      /\ sent (Canvas.KeyPointerOver i) = [])
  /\ (Game.pointerDown g = false -> sent (Canvas.KeyPointerOver i) = []).
Proof.
  intros Hg Hd Hn Hws Hplay Hstop sent event. unfold sent, event.
  split; [|split].
  - intros Hidle. split; [|split; [|split; [|split; [|split]]]].
    + rewrite (key_down_idle JSON_parse c g ws i sprite Hg Hd Hn Hws Hplay Hidle).
      reflexivity.
    + intros Hdown.
      rewrite (key_over_idle JSON_parse c g ws i sprite Hg Hd Hn Hws Hplay Hdown Hidle).
      reflexivity.
    + intros j sj Hj.
      assert (Hc1 : fst (Canvas.step JSON_parse c (Canvas.KeyPointerDown j))
                    = Canvas.set_appRef c (Some (Game.stage_pointerdown g))).
      { cbn [Canvas.step]. unfold Canvas.on_key. rewrite Hg, Hd, Hj. reflexivity. }
      rewrite Hc1.
      rewrite (key_over_idle JSON_parse
                 (Canvas.set_appRef c (Some (Game.stage_pointerdown g)))
                 (Game.stage_pointerdown g) ws i sprite);
        try reflexivity; assumption.
    + cbn [Canvas.step].
      rewrite (key_release_idle c g i sprite Hg Hd Hn _ Hidle). reflexivity.
    + cbn [Canvas.step].
      rewrite (key_release_idle c g i sprite Hg Hd Hn _ Hidle). reflexivity.
    + cbn [Canvas.step].
      rewrite (key_release_idle c g i sprite Hg Hd Hn _ Hidle). reflexivity.
  - intros Hplaying. split; [|split; [|split; [|split]]].
    + cbn [Canvas.step].
      rewrite (key_release_playing c g ws i sprite Hg Hd Hn Hws _ Hstop Hplaying).
      reflexivity.
    + cbn [Canvas.step].
      rewrite (key_release_playing c g ws i sprite Hg Hd Hn Hws _ Hstop Hplaying).
      reflexivity.
    + cbn [Canvas.step].
      rewrite (key_release_playing c g ws i sprite Hg Hd Hn Hws _ Hstop Hplaying).
      reflexivity.
    + rewrite (key_down_playing JSON_parse c g i sprite Hg Hd Hn Hplaying).
      reflexivity.
    + cbn [Canvas.step]. unfold Canvas.on_key. rewrite Hg, Hd, Hn.
      rewrite (onPointerOver_quiet g sprite (or_intror Hplaying)). reflexivity.
  - intros Hup. cbn [Canvas.step]. unfold Canvas.on_key. rewrite Hg, Hd, Hn.
    rewrite (onPointerOver_quiet g sprite (or_introl Hup)). reflexivity.
Qed.

Lemma pointer_input_on_the_wire_witness :
  sends (snd (Canvas.step parse_known mounted (Canvas.KeyPointerDown 0)))
  = [(0%nat, IGameEvent Play (keyMessage "c" 1))].
Proof.
  destruct (pointer_input_on_the_wire parse_known mounted (wired view0) 0 0 sprite_c1)
    as (Hidle & _); [vm_compute; reflexivity .. |].
  destruct Hidle as (Hdown & _); [vm_compute; tauto|].
  exact Hdown.
Defined.

(** X16. The whole round trip of one key.  On a mounted component, for a
    key that is not playing: the press sends the Play event; when that
    event comes back the key is in the playing set and the synth is
    attacked with the key's note; the release then sends the Stop event;
    and when that one comes back the synth is released and the playing set
    is what it was before the press.  Exactly two messages are sent and
    the synth is called exactly twice. *)
Theorem key_round_trip
    (JSON_parse : string -> Result JsValue)
    (c : Canvas.t) (g : Game.t) (ws i : nat) (sprite : PianoSprite.t)
    (dataPlay dataStop : string) :
  Canvas.appRef c = Some g ->
  Game.destroyed (Game.app g) = false ->
  nth_error (Game.children (Game.app g)) i = Some sprite ->
  Canvas.wsRef c = Some ws ->
  Game._onKeyPlay g = Some (SendEventWith Play) ->
  Game._onKeyStop g = Some (SendEventWith Stop) ->
  ~ In (sprite_id sprite) (Game.playing g) ->
  let key := PianoSprite.key (PianoSprite.meta sprite) in
  let octave := PianoSprite.octave (PianoSprite.meta sprite) in
  JSON_parse dataPlay = Ok (IGameEvent Play (keyMessage key octave)) ->
  JSON_parse dataStop = Ok (IGameEvent Stop (keyMessage key octave)) ->
  let half := Canvas.run JSON_parse c
                [Canvas.KeyPointerDown i; Canvas.WsMessage dataPlay] in
  let whole := Canvas.run JSON_parse c
                 [Canvas.KeyPointerDown i; Canvas.WsMessage dataPlay;
                  Canvas.KeyPointerUp i; Canvas.WsMessage dataStop] in
  playing_of (fst half) = (Game.playing g ++ [sprite_id sprite])%list
  /\ sends (snd whole)
     = [(ws, IGameEvent Play (keyMessage key octave));
        (ws, IGameEvent Stop (keyMessage key octave))]
  /\ synthCalls (snd whole) = [TriggerAttack (sprite_id sprite); TriggerRelease]
  /\ playing_of (fst whole) = Game.playing g.
Proof.
  intros Hg Hd Hn Hws Hplay Hstop Hidle key octave HP HS half whole.
  set (c1 := Canvas.set_appRef c (Some (Game.stage_pointerdown g))).
  set (g2 := fst (Game.startPlaying (Game.stage_pointerdown g) (VStr key) (VNum octave))).
  set (c2 := Canvas.set_appRef c1 (Some g2)).
  set (c3 := Canvas.set_appRef c2 (Some (Game.stage_pointerup g2))).
  pose proof (key_down_idle JSON_parse c g ws i sprite Hg Hd Hn Hws Hplay Hidle) as E1.
  fold key octave c1 in E1.
  destruct (key_message_step JSON_parse c1 (Game.stage_pointerdown g) dataPlay
              key octave eq_refl) as (E2 & _).
  specialize (E2 HP). fold g2 c2 in E2.
  assert (Hin2 : In (sprite_id sprite) (Game.playing g2)).
  { unfold g2. simpl. apply in_or_app. right. left. reflexivity. }
  assert (E3 : Canvas.step JSON_parse c2 (Canvas.KeyPointerUp i)
               = (c3, [Log Info "key up %s%d" [VStr key; VNum octave];
                       Invoke (SendEventWith Stop) key octave;
                       WsSend ws (IGameEvent Stop (keyMessage key octave))])).
  { cbn [Canvas.step].
    apply (key_release_playing c2 g2 ws i sprite); try reflexivity; assumption. }
  destruct (key_message_step JSON_parse c3 (Game.stage_pointerup g2) dataStop
              key octave eq_refl) as (_ & E4).
  specialize (E4 HS).
  assert (Hhalf : half = (c2, ([Log Info "key down %s%d" [VStr key; VNum octave];
                                Invoke (SendEventWith Play) key octave;
                                WsSend ws (IGameEvent Play (keyMessage key octave))]
                               ++ (received dataPlay
                                   ++ [TriggerAttack
                                         (Game.keyId (VStr key) (VNum octave))])
                               ++ [])%list)).
  { unfold half. rewrite (run_step JSON_parse c c1 _ _ _ E1).
    rewrite (run_step JSON_parse c1 c2 _ _ _ E2). reflexivity. }
  assert (Hwhole :
            whole
            = (fst (Canvas.step JSON_parse c3 (Canvas.WsMessage dataStop)),
               ([Log Info "key down %s%d" [VStr key; VNum octave];
                 Invoke (SendEventWith Play) key octave;
                 WsSend ws (IGameEvent Play (keyMessage key octave))]
                ++ (received dataPlay
                    ++ [TriggerAttack (Game.keyId (VStr key) (VNum octave))])
                ++ [Log Info "key up %s%d" [VStr key; VNum octave];
                    Invoke (SendEventWith Stop) key octave;
                    WsSend ws (IGameEvent Stop (keyMessage key octave))]
                ++ (received dataStop ++ [TriggerRelease]) ++ [])%list)).
  { unfold whole. rewrite (run_step JSON_parse c c1 _ _ _ E1).
    rewrite (run_step JSON_parse c1 c2 _ _ _ E2).
    rewrite (run_step JSON_parse c2 c3 _ _ _ E3).
    rewrite (run_step JSON_parse c3 _ _ _ _ E4). rewrite E4. reflexivity. }
  rewrite Hhalf, Hwhole, E4. split; [reflexivity|]. split; [reflexivity|].
  split; [reflexivity|].
  unfold playing_of. simpl. rewrite filter_app. simpl.
  change (Game.keyId (VStr key) (VNum octave)) with (sprite_id sprite).
  rewrite String.eqb_refl. simpl. rewrite app_nil_r.
  apply filter_out_absent. exact Hidle.
Qed.

Lemma key_round_trip_witness :
  sends (snd (Canvas.run parse_known mounted
                [Canvas.KeyPointerDown 0; Canvas.WsMessage (key_event_text Play "c" 1);
                 Canvas.KeyPointerUp 0; Canvas.WsMessage (key_event_text Stop "c" 1)]))
  = [(0%nat, IGameEvent Play (keyMessage "c" 1));
     (0%nat, IGameEvent Stop (keyMessage "c" 1))].
Proof.
  destruct (key_round_trip parse_known mounted (wired view0) 0 0 sprite_c1
              (key_event_text Play "c" 1) (key_event_text Stop "c" 1))
    as (_ & Hsent & _);
    [vm_compute; reflexivity | vm_compute; reflexivity | vm_compute; reflexivity
    | vm_compute; reflexivity | vm_compute; reflexivity | vm_compute; reflexivity
    | vm_compute; tauto | vm_compute; reflexivity | vm_compute; reflexivity |].
  exact Hsent.
Defined.

(** ** Unmounting *)

Lemma nth_error_last (l : list Z) (d : Z) :
  nth_error (l ++ [d]) (List.length l) = Some d.
Proof.
  rewrite nth_error_app2 by lia. rewrite Nat.sub_diag. reflexivity.
Qed.

Lemma remove_nth_last (l : list Z) (d : Z) :
  Canvas.remove_nth (List.length l) (l ++ [d]) = l.
Proof.
  induction l as [|a rest IH]; [reflexivity|]. simpl. rewrite IH. reflexivity.
Qed.

(** X17. Unmounting does not stop the reconnecting.  The cleanup destroys
    the game and calls [close] on the held socket, and that is all: the
    game and the socket stay in their refs, the pending timers stay
    pending with their delays, and the close handler stays in place.  So
    when the close of that socket arrives, a reconnect is scheduled as
    usual, and when its timer fires a new socket is opened and held, the
    backoff doubled. *)
Theorem unmount_keeps_reconnecting
    (JSON_parse : string -> Result JsValue) (c : Canvas.t) :
  let c1 := fst (Canvas.step JSON_parse c Canvas.Unmount) in
  let out1 := snd (Canvas.step JSON_parse c Canvas.Unmount) in
  let after := Canvas.run JSON_parse c
                 [Canvas.Unmount; Canvas.WsClose;
                  Canvas.TimerFired (List.length (Canvas.timers c))] in
  Canvas.wsRef c1 = Canvas.wsRef c
  /\ Canvas.timers c1 = Canvas.timers c
  /\ Canvas.reconnectBackoff c1 = Canvas.reconnectBackoff c
  /\ Canvas.watchers c1 = Canvas.watchers c
  /\ playing_of c1 = playing_of c
  /\ (forall g, Canvas.appRef c = Some g ->
        exists g', Canvas.appRef c1 = Some g'
                   /\ Game.destroyed (Game.app g') = true
                   /\ In AppDestroy out1)
  /\ (forall ws, Canvas.wsRef c = Some ws -> In (WsCloseCall ws) out1)
  /\ delays (snd after) = [Canvas.reconnectBackoff c]
  /\ opened (snd after) = [Canvas.sockets c]
  /\ Canvas.wsRef (fst after) = Some (Canvas.sockets c)
  /\ Canvas.reconnectBackoff (fst after) = Canvas.reconnectBackoff c * 2
  /\ Canvas.timers (fst after) = Canvas.timers c.
Proof.
  intros c1 out1 after.
  assert (Hc1 : Canvas.wsRef c1 = Canvas.wsRef c
                /\ Canvas.timers c1 = Canvas.timers c
                /\ Canvas.reconnectBackoff c1 = Canvas.reconnectBackoff c
                /\ Canvas.sockets c1 = Canvas.sockets c).
  { unfold c1. simpl. unfold Canvas.unmount.
    destruct (Canvas.appRef c); repeat split. }
  destruct Hc1 as (Hws & Ht & Hb & Hs).
  split; [exact Hws|]. split; [exact Ht|]. split; [exact Hb|].
  split; [unfold c1; simpl; unfold Canvas.unmount;
          destruct (Canvas.appRef c); reflexivity|].
  split; [unfold c1, playing_of; simpl; unfold Canvas.unmount;
          destruct (Canvas.appRef c) eqn:E; simpl; rewrite ?E; reflexivity|].
  split.
  { intros g Hg. unfold c1, out1. simpl. unfold Canvas.unmount. rewrite Hg. simpl.
    eexists. split; [reflexivity|]. split; [reflexivity|]. right. left. reflexivity. }
  split.
  { intros ws Hw. unfold out1. simpl. unfold Canvas.unmount.
    destruct (Canvas.appRef c); simpl; rewrite Hw; simpl; auto. }
  assert (Hafter :
            after
            = (fst (Canvas.reconnect
                      (Canvas.set_timers
                         (fst (Canvas.onclose c1))
                         (Canvas.remove_nth (List.length (Canvas.timers c))
                            (Canvas.timers (fst (Canvas.onclose c1)))))),
               (out1 ++ snd (Canvas.onclose c1)
                ++ snd (Canvas.reconnect
                          (Canvas.set_timers
                             (fst (Canvas.onclose c1))
                             (Canvas.remove_nth (List.length (Canvas.timers c))
                                (Canvas.timers (fst (Canvas.onclose c1))))))
                ++ [])%list)).
  { unfold after.
    rewrite (run_step JSON_parse c c1 Canvas.Unmount out1)
      by (unfold c1, out1; destruct (Canvas.step JSON_parse c Canvas.Unmount);
          reflexivity).
    rewrite (run_step JSON_parse c1 (fst (Canvas.onclose c1)) Canvas.WsClose
               (snd (Canvas.onclose c1))) by reflexivity.
    cbn [Canvas.run Canvas.step].
    assert (Hn : nth_error (Canvas.timers (fst (Canvas.onclose c1)))
                   (List.length (Canvas.timers c))
                 = Some (Canvas.reconnectBackoff c1)).
    { simpl. rewrite Ht. apply nth_error_last. }
    rewrite Hn.
    destruct (Canvas.reconnect _) as [c3 out3]. reflexivity. }
  rewrite Hafter. simpl. rewrite !delays_app, !opened_app. simpl.
  destruct (unmount_out c) as (_ & _ & Hd & Ho).
  change (snd (Canvas.unmount c)) with out1 in Hd, Ho. rewrite Hd, Ho. simpl.
  rewrite Hb, Hs, Ht, remove_nth_last. repeat split.
Qed.

Lemma unmount_keeps_reconnecting_witness :
  opened (snd (Canvas.run parse_known mounted
                 [Canvas.Unmount; Canvas.WsClose; Canvas.TimerFired 0]))
  = [1%nat].
Proof.
  apply (unmount_keeps_reconnecting parse_known mounted).
Defined.

(** ** The keyboard as drawn and as lit *)

(** X18. The keyboard pattern: of the keys drawn, key [i] is created black
    exactly when [i mod 12] is 1, 3, 6, 8 or 10 (the sharps [c#], [d#],
    [f#], [g#], [a#]), and white otherwise; five black keys in every twelve. *)
Theorem black_key_pattern (g : Game.t) (i : nat) :
  Game.children (Game.app g) = [] ->
  (i < Game.keyCount g)%nat ->
  exists sprite,
    nth_error (Game.children (Game.app (Game.createPianoKeys g))) i = Some sprite
    /\ (In (i mod 12)%nat [1; 3; 6; 8; 10]%nat -> PianoSprite.tint sprite = 0x000000)
    /\ (~ In (i mod 12)%nat [1; 3; 6; 8; 10]%nat -> PianoSprite.tint sprite = 0xffffff)
    /\ (Game.isBlackKey (PianoSprite.key (PianoSprite.meta sprite)) = true
        <-> In (i mod 12)%nat [1; 3; 6; 8; 10]%nat).
Proof.
  intros Hnil Hi.
  exists (layoutKey (Game.view (Game.app g)) (Game.keyCount g) i).
  split.
  { rewrite (createPianoKeys_children g Hnil).
    rewrite nth_error_map, nth_error_nth' with (d := 0%nat)
      by (rewrite length_seq; exact Hi).
    rewrite seq_nth by exact Hi. reflexivity. }
  unfold layoutKey.
  cbn [PianoSprite.tint PianoSprite.meta PianoSprite.key].
  assert (Hm : (i mod 12 < 12)%nat) by (apply Nat.mod_upper_bound; discriminate).
  destruct (i mod 12)%nat as [|[|[|[|[|[|[|[|[|[|[|[|m]]]]]]]]]]]]; try lia;
    cbn [nth Game.PIANO_KEYS]; simpl Game.isBlackKey; simpl In;
    (split; [|split; [|split]]); intros; try reflexivity; try discriminate;
    try tauto; try lia.
Qed.

Lemma black_key_pattern_witness :
  exists sprite,
    nth_error (Game.children (Game.app (Game.createPianoKeys (blank view0)))) 13
    = Some sprite
    /\ PianoSprite.tint sprite = 0x000000.
Proof.
  destruct (black_key_pattern (blank view0) 13) as (sprite & Hn & Hblack & _).
  - reflexivity.
  - simpl. lia.
  - exists sprite. split; [exact Hn|]. apply Hblack. simpl. tauto.
Defined.

Lemma render_sprite_overwrites (g h : Game.t) (sprite : PianoSprite.t) :
  Game.render_sprite h (Game.render_sprite g sprite) = Game.render_sprite h sprite.
Proof.
  unfold Game.render_sprite.
  destruct (Game.isPlaying g _ _); simpl; destruct (Game.isPlaying h _ _); reflexivity.
Qed.

Lemma render_sprite_lit (g : Game.t) (id : string) (sprite : PianoSprite.t) :
  Game.playing g = [id] ->
  PianoSprite.tint (Game.render_sprite g sprite)
  = if String.eqb (sprite_id sprite) id
    then PianoSprite.playingColor (PianoSprite.meta sprite)
    else if Game.isBlackKey (PianoSprite.key (PianoSprite.meta sprite))
         then 0x000000 else 0xffffff.
Proof.
  intros Hp. unfold Game.render_sprite, Game.isPlaying. rewrite Hp.
  fold (sprite_id sprite). simpl indexOf.
  rewrite (String.eqb_sym id (sprite_id sprite)).
  destruct (String.eqb (sprite_id sprite) id); simpl; [reflexivity|].
  destruct (Game.isBlackKey _); reflexivity.
Qed.

(** X19. A Play lights exactly one key, and the Stop puts it out.  On a
    game showing the keys as drawn with nothing playing: after
    [startPlaying] for the key of sprite [i] and a render pass, sprite [i]
    has its active colour and every other sprite its resting colour (black
    for the sharps, white otherwise); after the matching [stopPlaying] and
    another render pass every sprite is exactly as it was drawn. *)
Theorem play_lights_one_key
    (v : Game.HTMLCanvasElement) (g : Game.t) (i : nat) (si : PianoSprite.t) :
  Game.children (Game.app g) = Game.children (Game.app (Game.new v)) ->
  Game.playing g = [] ->
  nth_error (Game.children (Game.app g)) i = Some si ->
  let key := VStr (PianoSprite.key (PianoSprite.meta si)) in
  let octave := VNum (PianoSprite.octave (PianoSprite.meta si)) in
  let lit := Game.render (fst (Game.startPlaying g key octave)) in
  let out := Game.render (fst (Game.stopPlaying lit key octave)) in
  (forall j sj,
      nth_error (Game.children (Game.app g)) j = Some sj ->
      exists sj',
        nth_error (Game.children (Game.app lit)) j = Some sj'
        /\ PianoSprite.tint sj'
           = if Nat.eqb j i
             then PianoSprite.playingColor (PianoSprite.meta sj)
             else if Game.isBlackKey (PianoSprite.key (PianoSprite.meta sj))
                  then 0x000000 else 0xffffff)
  /\ Game.children (Game.app out) = Game.children (Game.app g)
  /\ Game.playing out = [].
Proof.
  intros Hkeys Hidle Hi key octave lit out.
  assert (Hlit : Game.playing (fst (Game.startPlaying g key octave)) = [sprite_id si]).
  { simpl. rewrite Hidle. reflexivity. }
  split; [|split].
  - intros j sj Hj.
    exists (Game.render_sprite (fst (Game.startPlaying g key octave)) sj).
    split.
    { unfold lit. simpl. rewrite nth_error_map, Hj. reflexivity. }
    rewrite (render_sprite_lit _ (sprite_id si) sj Hlit).
    destruct (Nat.eqb j i) eqn:Eji.
    + apply Nat.eqb_eq in Eji. subst j. rewrite Hi in Hj. injection Hj as <-.
      rewrite String.eqb_refl. reflexivity.
    + apply Nat.eqb_neq in Eji.
      destruct (String.eqb (sprite_id sj) (sprite_id si)) eqn:Eid; [|reflexivity].
      apply String.eqb_eq in Eid. exfalso. apply Eji.
      pose proof (new_ids_NoDup v) as Hnd. rewrite <- Hkeys in Hnd.
      apply (proj1 (NoDup_nth_error _) Hnd).
      * apply nth_error_Some. rewrite nth_error_map, Hj. discriminate.
      * rewrite !nth_error_map, Hi, Hj. simpl. rewrite Eid. reflexivity.
  - unfold out, lit. simpl. rewrite map_map.
    rewrite (map_ext _ (Game.render_sprite
                          (Game.set_playing
                             (Game.render (Game.set_playing g (Game.playing g ++ [Game.keyId key octave])))
                             (filter (fun k => negb (String.eqb k (Game.keyId key octave)))
                                (Game.playing g ++ [Game.keyId key octave])))))
      by (intros s; apply render_sprite_overwrites).
    rewrite Hkeys. unfold Game.new.
    rewrite (createPianoKeys_children
               (Game.mkGame (Game.mkApp v 0xffffff true [] false) 52 false None None [])
               eq_refl).
    rewrite map_map. apply map_ext. intros n. apply render_sprite_resting.
    simpl. rewrite Hidle. simpl. rewrite String.eqb_refl. reflexivity.
  - unfold out, lit. simpl. rewrite Hidle. simpl. rewrite String.eqb_refl.
    reflexivity.
Qed.

Lemma play_lights_one_key_witness :
  Game.children
    (Game.app
       (Game.render
          (fst (Game.stopPlaying
                  (Game.render (fst (Game.startPlaying game0 (VStr "c") (VNum 1))))
                  (VStr "c") (VNum 1)))))
  = Game.children (Game.app game0).
Proof.
  destruct (play_lights_one_key view0 game0 0 sprite_c1) as (_ & Hback & _);
    [vm_compute; reflexivity | reflexivity | vm_compute; reflexivity |].
  exact Hback.
Defined.
